(** * ed-multi-pather: the route engine of [main.py] ([EDSMCalculator])

    A shallow embedding of the calculator class of [src/main.py]:
    Euclidean distances, leg distances of the entered route, the
    brute-force route optimiser, the jump estimate, the route log and the
    CSV export and import; and of the handlers of the page built by
    [home], which call the calculator and fill the tables and labels.

    Python floats are IEEE-754 binary64 numbers; they are modelled by the
    Standard Library's executable specification [spec_float] at precision
    53 and maximal exponent 1024.  Python exceptions are modelled by an
    error result.  Python lists are objects of a heap, so that aliasing and
    in-place mutation ([list.extend], [list.append]) are visible.  What
    is not the program's enters as a parameter: the builtin [sum], which
    is not the same in all interpreters, the formatting and the parsing
    of floats, the file system, and the frame that pandas reads. *)

From Stdlib Require Import ZArith List Bool Lia Permutation.
From Stdlib Require Import Floats.SpecFloat.
From stdpp Require Import gmap strings list fin_maps pretty.

Local Open Scope Z_scope.

(** ** Python floats *)

Module PyFloat.

Definition prec : Z := 53.
Definition emax : Z := 1024.

Definition float := spec_float.

Definition zero : float := S754_zero false.
Definition inf : float := S754_infinity false.
Definition nan : float := S754_nan.

Definition add : float -> float -> float := SFadd prec emax.
Definition sub : float -> float -> float := SFsub prec emax.
Definition mul : float -> float -> float := SFmul prec emax.
Definition div : float -> float -> float := SFdiv prec emax.
Definition sqrt : float -> float := SFsqrt prec emax.

(** The comparisons [<], [<=] and [==]: all false on a NaN operand. *)
Definition ltb : float -> float -> bool := SFltb.
Definition leb : float -> float -> bool := SFleb.
Definition eqb : float -> float -> bool := SFeqb.

(** [float(n)] of an integer: the nearest binary64 number. *)
Definition of_Z (n : Z) : float := binary_normalize prec emax n 0 false.

Definition is_nan (v : float) : bool :=
  match v with S754_nan => true | _ => false end.

Definition is_inf (v : float) : bool :=
  match v with S754_infinity _ => true | _ => false end.

Definition is_zero (v : float) : bool :=
  match v with S754_zero _ => true | _ => false end.

(** [math.isfinite]. *)
Definition is_finite (v : float) : bool :=
  match v with
  | S754_zero _ | S754_finite _ _ _ => true
  | S754_infinity _ | S754_nan => false
  end.

End PyFloat.

Import PyFloat.

(** ** Exceptions *)

Inductive exn : Type :=
| OverflowError
| ValueError
| ZeroDivisionError
| KeyError
| IndexError
| TypeError.

Inductive result (A : Type) : Type :=
| Ok (a : A)
| Raise (e : exn).

Arguments Ok {A} a.
Arguments Raise {A} e.

Definition rbind {A B : Type} (r : result A) (k : A -> result B) : result B :=
  match r with
  | Ok a => k a
  | Raise e => Raise e
  end.

Declare Scope result_scope.
Delimit Scope result_scope with result.
Notation "'let?' x := r 'in' k" := (rbind r (fun x => k))
  (at level 10, x name, r at level 100, k at level 200) : result_scope.
Local Open Scope result_scope.

(** [v ** 2] on a float.  CPython's [float_pow] returns a NaN operand
    unchanged and [inf] for an infinite one; otherwise it calls C's [pow],
    taken here as the correctly rounded square (the result of a C library
    can differ from it in the last place), and raises [OverflowError] when
    a finite operand overflows. *)
Definition pow2 (v : float) : result float :=
  match v with
  | S754_nan => Ok nan
  | S754_infinity _ => Ok inf
  | _ => let r := mul v v in
         if is_inf r then Raise OverflowError else Ok r
  end.

(** [math.sqrt]: a NaN operand gives NaN; an operand outside the domain
    (negative, or minus infinity) raises [ValueError]. *)
Definition math_sqrt (v : float) : result float :=
  if is_nan v then Ok nan
  else let r := sqrt v in
       if is_nan r then Raise ValueError else Ok r.

(** Float [/]: division by a zero raises [ZeroDivisionError]. *)
Definition truediv (a b : float) : result float :=
  if is_zero b then Raise ZeroDivisionError else Ok (div a b).

(** [math.ceil]: the least integer not below the operand, a Python [int];
    NaN raises [ValueError], an infinity [OverflowError]. *)
Definition math_ceil (v : float) : result Z :=
  match v with
  | S754_nan => Raise ValueError
  | S754_infinity _ => Raise OverflowError
  | S754_zero _ => Ok 0
  | S754_finite s m e =>
      let n := if s then Z.neg m else Z.pos m in
      match e with
      | Z.neg k => Ok (- ((- n) / 2 ^ Z.pos k))
      | _ => Ok (n * 2 ^ e)
      end
  end.

(** ** Data model *)

(** The values a name or a CSV cell can be: a string, or what pandas infers
    for a column (integers, floats with NaN for a missing cell, booleans). *)
Inductive value : Type :=
| VStr (s : string)
| VInt (n : Z)
| VFloat (v : float)
| VBool (b : bool).

(** The dict [{"x": .., "y": .., "z": ..}]; the coordinates are floats, as
    [float(row['X'])] of the import makes them. *)
Module Coord.

Record t : Type := mk { x : float; y : float; z : float }.

End Coord.

(** The dict [{"name": .., "coordinates": ..}] of one star system. *)
Record system : Type := mkSystem {
  name : value;
  coordinates : Coord.t
}.

(** ** [calculate_distance] *)

Definition calculate_distance (coords1 coords2 : Coord.t) : result float :=
  let? dx := pow2 (sub (Coord.x coords2) (Coord.x coords1)) in
  let? dy := pow2 (sub (Coord.y coords2) (Coord.y coords1)) in
  let? dz := pow2 (sub (Coord.z coords2) (Coord.z coords1)) in
  math_sqrt (add (add dx dy) dz).

(** ** The heap of list objects *)

Definition loc : Type := positive.

(** One entry of [route_log]: the dict
    [{'timestamp': .., 'systems': .., 'distance': ..}], whose ['systems']
    is a list object of its own. *)
Module Entry.
Record t : Type := mk {
  timestamp : string;
  systems : loc;
  distance : float
}.
End Entry.

(** The list objects of the program: routes (lists of system dicts), the
    name lists of log entries, and the route log. *)
Inductive obj : Type :=
| ListSystems (items : list system)
| ListNames (items : list value)
| ListLog (items : list Entry.t).

(** The attributes of an [EDSMCalculator] (the name list loaded from
    [systems.csv] plays no part in the engine and is left out).  Its
    methods never rebind an attribute; all mutation is inside the list
    objects. *)
Record EDSMCalculator : Type := mkCalculator {
  systems : loc;
  route_log : loc;
  jump_range : float
}.

(** Computations over the heap that may raise. *)
Definition M (A : Type) : Type := gmap loc obj -> result A * gmap loc obj.

Definition ret {A : Type} (a : A) : M A := fun h => (Ok a, h).

Definition raise {A : Type} (e : exn) : M A := fun h => (Raise e, h).

Definition bind {A B : Type} (m : M A) (k : A -> M B) : M B :=
  fun h => match m h with
           | (Ok a, h') => k a h'
           | (Raise e, h') => (Raise e, h')
           end.

Definition lift {A : Type} (r : result A) : M A := fun h => (r, h).

(** [try: m except Exception as e: handler e]. *)
Definition catch {A : Type} (m : M A) (handler : exn -> M A) : M A :=
  fun h => match m h with
           | (Ok a, h') => (Ok a, h')
           | (Raise e, h') => handler e h'
           end.

Declare Scope heap_scope.
Delimit Scope heap_scope with heap.
Notation "x <- m ;; k" := (bind m (fun x => k))
  (at level 100, m at next level, right associativity) : heap_scope.
Notation "m ;;; k" := (bind m (fun _ => k))
  (at level 100, right associativity) : heap_scope.
Local Open Scope heap_scope.

(** A new list object. *)
Definition alloc (o : obj) : M loc :=
  fun h => let l := fresh (dom h) in (Ok l, <[l := o]> h).

(** Reading a list of systems. *)
Definition get_systems (l : loc) : M (list system) :=
  fun h => match h !! l with
           | Some (ListSystems items) => (Ok items, h)
           | _ => (Raise TypeError, h)
           end.

(** [l.extend(more)] on a list of systems. *)
Definition extend (l : loc) (more : list system) : M unit :=
  fun h => match h !! l with
           | Some (ListSystems items) =>
               (Ok tt, <[l := ListSystems (items ++ more)]> h)
           | _ => (Raise TypeError, h)
           end.

(** [l.append(entry)] on the route log. *)
Definition append_log (l : loc) (entry : Entry.t) : M unit :=
  fun h => match h !! l with
           | Some (ListLog items) =>
               (Ok tt, <[l := ListLog (items ++ [entry])]> h)
           | _ => (Raise TypeError, h)
           end.

(** ** [calculate_route_distances] *)

(** A leg: [(system1["name"], system2["name"], distance)]. *)
Definition leg : Type := value * value * float.

(** [route[i]]. *)
Definition item (route : list system) (i : nat) : result system :=
  match route !! i with
  | Some s => Ok s
  | None => Raise IndexError
  end.

(** The body of the [for i in range(len(self.systems) - 1)] loop, and the
    loop over the indices still to visit. *)
Definition legs_step (route : list system) (acc : list leg * float) (i : nat)
  : result (list leg * float) :=
  let '(distances, total_distance) := acc in
  let? system1 := item route i in
  let? system2 := item route (S i) in
  let? distance :=
    calculate_distance (coordinates system1) (coordinates system2) in
  Ok (distances ++ [(name system1, name system2, distance)],
      add total_distance distance).

Fixpoint legs_loop (route : list system) (indices : list nat)
    (acc : list leg * float) : result (list leg * float) :=
  match indices with
  | [] => Ok acc
  | i :: indices' =>
      let? acc' := legs_step route acc i in
      legs_loop route indices' acc'
  end.

(** [total_distance] starts as the integer [0], which [+=] turns into the
    float [0.0] at the first leg. *)
Definition route_distances (route : list system) : result (list leg * float) :=
  legs_loop route (seq 0 (length route - 1)) ([], zero).

Definition calculate_route_distances (self : EDSMCalculator)
  : M (list leg * float) :=
  route <- get_systems (systems self) ;;
  lift (route_distances route).

(** ** [optimize_route] *)

Module Itertools.

(** Each element of a list paired with the others, by position. *)
Fixpoint picks {A : Type} (l : list A) : list (A * list A) :=
  match l with
  | [] => []
  | a :: l' => (a, l') :: map (fun p => (fst p, a :: snd p)) (picks l')
  end.

Fixpoint permutations_of_length {A : Type} (n : nat) (l : list A)
  : list (list A) :=
  match n with
  | O => [[]]
  | S n' =>
      flat_map (fun p => map (cons (fst p)) (permutations_of_length n' (snd p)))
               (picks l)
  end.

(** [itertools.permutations(l)]: all orderings of [l], in lexicographic
    order of the positions in [l]. *)
Definition permutations {A : Type} (l : list A) : list (list A) :=
  permutations_of_length (length l) l.

End Itertools.

(** The builtin [sum] on floats is the interpreter's, and it is not the
    same in all of them.  Up to CPython 3.11 it adds the items from left
    to right, from the integer [0].  From CPython 3.12 on it adds the
    first item to [0] and the others with Neumaier's compensation: beside
    the running sum it keeps the rounding errors of the additions, summed
    up, and adds them to the result at the end when they are a finite
    number other than zero.  The program is modelled for any interpreter;
    the two are given as instances. *)
Class Interpreter : Type := {
  builtin_sum : list float -> float
}.

Definition sequential_sum (ds : list float) : float :=
  fold_left add ds zero.

(** [fabs]. *)
Definition fabs (v : float) : float :=
  match v with
  | S754_zero _ => S754_zero false
  | S754_infinity _ => S754_infinity false
  | S754_nan => S754_nan
  | S754_finite _ m e => S754_finite false m e
  end.

Fixpoint compensated_loop (ds : list float) (f_result c : float) : float :=
  match ds with
  | [] =>
      if is_finite c && negb (is_zero c) then add f_result c else f_result
  | x :: ds' =>
      let t := add f_result x in
      compensated_loop ds' t
        (if leb (fabs x) (fabs f_result)
         then add c (add (sub f_result t) x)
         else add c (add (sub x t) f_result))
  end.

Definition compensated_sum (ds : list float) : float :=
  match ds with
  | [] => zero
  | x :: ds' => compensated_loop ds' (add zero x) zero
  end.

Definition cpython_3_11 : Interpreter := {| builtin_sum := sequential_sum |}.
Definition cpython_3_12 : Interpreter := {| builtin_sum := compensated_sum |}.

(** The items of the generator [calculate_distance(route[i], route[i+1])
    for i in range(len(route)-1)], up to the first that raises. *)
Fixpoint leg_distances (route : list system) (indices : list nat)
  : result (list float) :=
  match indices with
  | [] => Ok []
  | i :: indices' =>
      let? a := item route i in
      let? b := item route (S i) in
      let? d := calculate_distance (coordinates a) (coordinates b) in
      let? ds := leg_distances route indices' in
      Ok (d :: ds)
  end.

(** [sum(calculate_distance(route[i], route[i+1]) for i in
    range(len(route)-1))]. *)
Definition tour_distance {py : Interpreter} (route : list system)
  : result float :=
  let? ds := leg_distances route (seq 0 (length route - 1)) in
  Ok (builtin_sum ds).

(** The [for route in itertools.permutations(self.systems[1:])] loop, with
    its two variables [shortest_distance] and [shortest_route].  Each pass
    builds the list [[self.systems[0]] + list(route)], a new object;
    [first] is [self.systems[0]]. *)
Fixpoint search {py : Interpreter} (first : system)
    (perms : list (list system))
    (shortest_distance : float) (shortest_route : option loc)
  : M (option loc) :=
  match perms with
  | [] => ret shortest_route
  | p :: perms' =>
      route <- alloc (ListSystems ([first] ++ p)) ;;
      total_distance <- lift (tour_distance ([first] ++ p)) ;;
      if ltb total_distance shortest_distance
      then search first perms' total_distance (Some route)
      else search first perms' shortest_distance shortest_route
  end.

(** The result is a list object, or [None]. *)
Definition optimize_route {py : Interpreter} (self : EDSMCalculator)
  : M (option loc) :=
  route <- get_systems (systems self) ;;
  if (length route <? 2)%nat then ret (Some (systems self))
  else
    first <- lift (item route 0) ;;
    search first (Itertools.permutations (drop 1 route)) inf None.

(** ** [log_route] *)

(** [now] is the clock reading [datetime.now().strftime(..)]. *)
Definition log_route (self : EDSMCalculator) (now : string)
    (route : loc) (total_distance : float) : M unit :=
  items <- get_systems route ;;
  names <- alloc (ListNames (map name items)) ;;
  append_log (route_log self)
    (Entry.mk now names total_distance).

(** ** [calculate_jumps] *)

Definition calculate_jumps (distance jump_range : float) : result Z :=
  if leb jump_range zero then Ok 0
  else
    let? q := truediv distance jump_range in
    math_ceil q.

(** The ['jumps'] cell of one row of the result table in [update_results]:
    [calculate_jumps(..) if jump_range > 0 else 0], shown as
    [jumps if jump_range > 0 else 'N/A']. *)
Inductive jumps_cell : Type :=
| JumpCount (n : Z)
| NotAvailable.

Definition row_jumps (distance jump_range : float) : result jumps_cell :=
  let? jumps :=
    (if ltb zero jump_range then calculate_jumps distance jump_range
     else Ok 0) in
  Ok (if ltb zero jump_range then JumpCount jumps else NotAvailable).

(** ** [import_route_from_csv] *)

(** What [pd.read_csv] gives for a text: the column labels and the rows,
    each row holding one cell per column.  The rows are taken as
    [iterrows] hands them to the loop of the import: where every column
    of the frame holds numbers and one of them floats, the integers of a
    row come as floats. *)
Record DataFrame : Type := mkFrame {
  columns : list string;
  rows : list (list value)
}.

(** The second component of the result: the three messages
    ["Invalid CSV format. Required columns: System Name, X, Y, Z"],
    ["Successfully imported {n} systems"] and
    ["Error importing CSV: {e}"]. *)
Inductive message : Type :=
| InvalidFormat
| Imported (n : nat)
| ErrorImporting (e : exn).

Definition required_columns : list string := ["System Name"; "X"; "Y"; "Z"]%string.

(** [all(col in csv_data.columns for col in required_columns)]. *)
Definition has_required_columns (cols : list string) : bool :=
  forallb (fun col => bool_decide (col ∈ cols)) required_columns.

(** [row[col]]: the cell of the column labelled [col]. *)
Fixpoint row_get (cols : list string) (row : list value) (col : string)
  : result value :=
  match cols, row with
  | c :: cols', v :: row' =>
      if String.eqb c col then Ok v else row_get cols' row' col
  | _, _ => Raise KeyError
  end.

Section CsvImport.

(** [float(s)] on a string: Python's parser of float literals, [None]
    where it raises [ValueError]. *)
Variable float_of_string : string -> option float.

(** [float(v)]. *)
Definition py_float (v : value) : result float :=
  match v with
  | VFloat f => Ok f
  | VInt n => Ok (of_Z n)
  | VBool b => Ok (of_Z (if b then 1 else 0))
  | VStr s => match float_of_string s with
              | Some f => Ok f
              | None => Raise ValueError
              end
  end.

(** The dict built from one row. *)
Definition row_system (cols : list string) (row : list value)
  : result system :=
  let? n := row_get cols row "System Name" in
  let? vx := row_get cols row "X" in
  let? fx := py_float vx in
  let? vy := row_get cols row "Y" in
  let? fy := py_float vy in
  let? vz := row_get cols row "Z" in
  let? fz := py_float vz in
  Ok (mkSystem n (Coord.mk fx fy fz)).

(** The [for _, row in csv_data.iterrows()] loop. *)
Fixpoint import_rows (cols : list string) (rs : list (list value))
    (imported_systems : list system) : result (list system) :=
  match rs with
  | [] => Ok imported_systems
  | row :: rs' =>
      let? system_data := row_system cols row in
      import_rows cols rs' (imported_systems ++ [system_data])
  end.

(** [csv] is the outcome of [pd.read_csv(file_content)]: a frame, or the
    exception the parser raised. *)
Definition import_route_from_csv (self : EDSMCalculator)
    (csv : result DataFrame) : M (bool * message) :=
  catch
    (csv_data <- lift csv ;;
     if negb (has_required_columns (columns csv_data))
     then ret (false, InvalidFormat)
     else
       imported_systems <- lift (import_rows (columns csv_data) (rows csv_data) []) ;;
       (extend (systems self) imported_systems ;;;
        ret (true, Imported (length imported_systems))))
    (fun e => ret (false, ErrorImporting e)).

(** The cell of column [col] of a row is there and [float] rejects it. *)
Definition field_fails (cols : list string) (row : list value)
    (col : string) : Prop :=
  exists v e, row_get cols row col = Ok v /\ py_float v = Raise e.

(** One of the X, Y and Z fields of a row does not parse as a float. *)
Definition row_fails (cols : list string) (row : list value) : Prop :=
  field_fails cols row "X" \/ field_fails cols row "Y" \/
  field_fails cols row "Z".

End CsvImport.

(** ** [export_route_to_csv] *)

(** The row written for one system. *)
Definition export_row (s : system) : list value :=
  [name s;
   VFloat (Coord.x (coordinates s));
   VFloat (Coord.y (coordinates s));
   VFloat (Coord.z (coordinates s))].

(** The file system and [csv.writer], which are not the program's:
    whether [open] returns or raises; whether the call number [i] of
    [writer.writerow], on a given row, returns or raises (a name that the
    encoding of the file cannot write); and whether leaving the [with]
    block, which flushes and closes the file, returns or raises (a full
    disk). *)
Record FileSystem : Type := mkFileSystem {
  open_file : result unit;
  writerow : nat -> list value -> result unit;
  close_file : result unit
}.

(** The calls of [writerow] from call number [i] on, up to the first that
    raises: the outcome, and the rows written. *)
Fixpoint write_rows (fs : FileSystem) (i : nat) (rs : list (list value))
  : result unit * list (list value) :=
  match rs with
  | [] => (Ok tt, [])
  | r :: rs' =>
      match writerow fs i r with
      | Ok _ => let '(outcome, written) := write_rows fs (S i) rs' in
                (outcome, r :: written)
      | Raise e => (Raise e, [])
      end
  end.

(** The flag returned, and the rows handed to the writer without an
    exception, the header first.  An empty route returns [False] at once;
    an exception of [open], of a write or of closing the file is caught
    and gives [False].  Turning the rows into text is the library's
    part. *)
Definition export_route_to_csv (self : EDSMCalculator) (fs : FileSystem)
  : M (bool * list (list value)) :=
  route <- get_systems (systems self) ;;
  match route with
  | [] => ret (false, [])
  | _ =>
      match open_file fs with
      | Raise _ => ret (false, [])
      | Ok _ =>
          let '(outcome, written) :=
            write_rows fs 0
              ([VStr "System Name"; VStr "X"; VStr "Y"; VStr "Z"]
                 :: map export_row route) in
          ret (match outcome, close_file fs with
               | Ok _, Ok _ => true
               | _, _ => false
               end,
               written)
      end
  end.

(** ** Vocabulary of the statements *)

(** A float that is not below zero: a zero, or a positive number or
    infinity. *)
Definition nonneg (v : float) : bool :=
  match v with
  | S754_zero _ => true
  | S754_infinity s | S754_finite s _ _ => negb s
  | S754_nan => false
  end.

(** All three coordinates are finite numbers. *)
Definition finite_coords (c : Coord.t) : bool :=
  is_finite (Coord.x c) && is_finite (Coord.y c) && is_finite (Coord.z c).

(** The legs of a route by recursion on the route: for each consecutive
    pair the two names and the distance. *)
Fixpoint legs_of (route : list system) : result (list leg) :=
  match route with
  | a :: (b :: _) as rest =>
      let? d := calculate_distance (coordinates a) (coordinates b) in
      let? ls := legs_of rest in
      Ok ((name a, name b, d) :: ls)
  | _ => Ok []
  end.

(** No consecutive pair of the route makes [calculate_distance] raise. *)
Fixpoint legs_defined (route : list system) : bool :=
  match route with
  | a :: (b :: _) as rest =>
      match calculate_distance (coordinates a) (coordinates b) with
      | Ok _ => legs_defined rest
      | Raise _ => false
      end
  | _ => true
  end.

(** A key that orders the floats other than NaN as [<] does: the class
    (infinities, negative, zero, positive), then exponent and mantissa. *)
Definition key (v : float) : Z * Z * Z :=
  match v with
  | S754_zero _ => (0, 0, 0)
  | S754_infinity s => (if s then -2 else 2, 0, 0)
  | S754_nan => (0, 0, 0)
  | S754_finite s m e => if s then (-1, - e, Z.neg m) else (1, e, Z.pos m)
  end.

Definition key_lt (a b : Z * Z * Z) : Prop :=
  let '(c1, e1, m1) := a in
  let '(c2, e2, m2) := b in
  c1 < c2 \/ (c1 = c2 /\ (e1 < e2 \/ (e1 = e2 /\ m1 < m2))).

Definition key_le (a b : Z * Z * Z) : Prop :=
  let '(c1, e1, m1) := a in
  let '(c2, e2, m2) := b in
  c1 < c2 \/ (c1 = c2 /\ (e1 < e2 \/ (e1 = e2 /\ m1 <= m2))).

(** Once the comparisons are stated on keys, they are linear arithmetic. *)
Ltac by_keys :=
  repeat match goal with
         | |- context [key ?v] => destruct (key v) as [[? ?] ?]
         end;
  simpl; lia.

(** The total of the tour that starts at [first] and goes on through [p];
    NaN where it has none. *)
Definition score {py : Interpreter} (first : system) (p : list system)
  : float :=
  match tour_distance ([first] ++ p) with
  | Ok t => t
  | Raise _ => nan
  end.

(** The loop of [optimize_route] on the candidates themselves, without the
    heap. *)
Fixpoint scan {py : Interpreter} (first : system)
    (perms : list (list system))
    (shortest_distance : float) (shortest_route : option (list system))
  : option (list system) :=
  match perms with
  | [] => shortest_route
  | p :: perms' =>
      if ltb (score first p) shortest_distance
      then scan first perms' (score first p) (Some p)
      else scan first perms' shortest_distance shortest_route
  end.

(** The tour has a total and it is a finite number. *)
Definition tour_finite {py : Interpreter} (first : system)
    (p : list system) : bool :=
  match tour_distance ([first] ++ p) with
  | Ok t => is_finite t
  | Raise _ => false
  end.

(** Every candidate tour of the route has a finite total. *)
Definition tours_finite {py : Interpreter} (route : list system) : bool :=
  match route with
  | [] => true
  | first :: rest => forallb (tour_finite first) (Itertools.permutations rest)
  end.

(** An entry of the log as it reads: its time, its names, its distance. *)
Definition entry_view (h : gmap loc obj) (e : Entry.t)
  : option (string * list value * float) :=
  match h !! Entry.systems e with
  | Some (ListNames names) => Some (Entry.timestamp e, names, Entry.distance e)
  | _ => None
  end.

Fixpoint entries_view (h : gmap loc obj) (es : list Entry.t)
  : option (list (string * list value * float)) :=
  match es with
  | [] => Some []
  | e :: es' =>
      match entry_view h e, entries_view h es' with
      | Some v, Some vs => Some (v :: vs)
      | _, _ => None
      end
  end.

(** The route log as it reads. *)
Definition log_view (h : gmap loc obj) (self : EDSMCalculator)
  : option (list (string * list value * float)) :=
  match h !! route_log self with
  | Some (ListLog es) => entries_view h es
  | _ => None
  end.

(** The exact value of a finite float is [numerator / denominator]. *)
Definition numerator (v : float) : Z :=
  match v with
  | S754_finite s m e => (if s then Z.neg m else Z.pos m) * 2 ^ Z.max e 0
  | _ => 0
  end.

Definition denominator (v : float) : Z :=
  match v with
  | S754_finite _ _ e => 2 ^ Z.max (- e) 0
  | _ => 1
  end.

(** ** Sample data *)

Definition point (a b c : Z) : Coord.t := Coord.mk (of_Z a) (of_Z b) (of_Z c).

(** The three systems A(0,0,0), B(3,0,0), C(3,4,0). *)
Definition sys_A : system := mkSystem (VStr "A") (point 0 0 0).
Definition sys_B : system := mkSystem (VStr "B") (point 3 0 0).
Definition sys_C : system := mkSystem (VStr "C") (point 3 4 0).

(** A system 1e200 light years away, and one whose X cell was empty in the
    CSV file, which pandas reads as NaN. *)
Definition sys_far : system := mkSystem (VStr "Far") (point (10 ^ 200) 0 0).
Definition sys_gap : system := mkSystem (VStr "Gap") (Coord.mk nan zero zero).

(** A system with the finite coordinates (1.3e154, 1.3e154, 0): the two
    squares are finite and their sum is not. *)
Definition sys_wide : system :=
  mkSystem (VStr "Wide") (point (13 * 10 ^ 153) (13 * 10 ^ 153) 0).

(** The smallest positive float, 2^-1074. *)
Definition tiny : float := S754_finite false 1 (-1074).

(** A calculator whose live route is the list object 1 and whose log is the
    list object 2, and a heap holding a given route and an empty log. *)
Definition calc : EDSMCalculator := mkCalculator 1%positive 2%positive (of_Z 5).

Definition heap_of (route : list system) : gmap loc obj :=
  <[1%positive := ListSystems route]> (<[2%positive := ListLog []]> ∅).

(** A frame with the four columns and one row for B. *)
Definition frame_B : DataFrame :=
  mkFrame required_columns
          [[VStr "B"; VFloat (of_Z 3); VFloat zero; VFloat zero]].

(** A frame without the Z column. *)
Definition frame_no_Z : DataFrame :=
  mkFrame ["System Name"; "X"; "Y"]%string
          [[VStr "B"; VFloat (of_Z 3); VFloat zero]].

(** A frame with a row for a system 1e200 light years away and a row whose
    X cell was empty. *)
Definition frame_far_gap : DataFrame :=
  mkFrame required_columns
          [[VStr "Far"; VFloat (of_Z (10 ^ 200)); VFloat zero; VFloat zero];
           [VStr "Gap"; VFloat nan; VFloat zero; VFloat zero]].

(** A frame whose Y cell does not parse. *)
Definition frame_bad_Y : DataFrame :=
  mkFrame required_columns
          [[VStr "B"; VStr "3"; VStr "north"; VStr "0"]].

(** A parser of float literals that knows two of them. *)
Definition parse_digits (s : string) : option float :=
  if String.eqb s "3" then Some (of_Z 3)
  else if String.eqb s "0" then Some zero
  else None.

(** ** [__init__] *)

(** A new calculator: two new empty lists and the jump range [0] (the
    names loaded from [systems.csv] are left out). *)
Definition new_calculator : M EDSMCalculator :=
  systems <- alloc (ListSystems []) ;;
  route_log <- alloc (ListLog []) ;;
  ret (mkCalculator systems route_log zero).

(** ** The page: the callers of the calculator in [home] *)

(** A row of a result table: the dict with the keys ['from'], ['to'],
    ['distance'] and ['jumps']. *)
Module Row.

Record t : Type := mk {
  from_sys : value;
  to_sys : value;
  distance : string;
  jumps : jumps_cell
}.

End Row.

(** A row of the history table, as [format_route_row] builds it. *)
Module HistoryRow.

Record t : Type := mk {
  timestamp : string;
  systems : string;
  distance : string
}.

End HistoryRow.

(** A row of the systems table, as [format_system_row] builds it. *)
Module SystemRow.

Record t : Type := mk {
  name : value;
  x : string;
  y : string;
  z : string
}.

End SystemRow.

(** A result table with its two labels: [results_table], [total_label] and
    [jumps_label], or their optimized counterparts. *)
Module Panel.

Record t : Type := mk {
  rows : list Row.t;
  total_text : string;
  jumps_text : string
}.

End Panel.

(** The calls of [ui.notify], by their message. *)
Inductive notice : Type :=
| PleaseAddTwoSystems
| ImportDone (m : message)
| ImportFailed (m : message)
| EnterValidJumpRange
| ErrorProcessingFile (e : exn)
| SystemNotFound (s : string).

(** The elements of the page that the handlers read and write. *)
Record page : Type := mkPage {
  jump_range_input : option float;
  system_input : option string;
  systems_rows : list SystemRow.t;
  results : Panel.t;
  optimized : Panel.t;
  history_rows : list HistoryRow.t;
  notifications : list notice
}.

(** The state the handlers work on: the heap, the attributes of the global
    [calculator], and the page. *)
Record world : Type := mkWorld {
  heap : gmap loc obj;
  calculator : EDSMCalculator;
  ui : page
}.

Definition U (A : Type) : Type := world -> result A * world.

Definition uret {A : Type} (a : A) : U A := fun w => (Ok a, w).

Definition ubind {A B : Type} (m : U A) (k : A -> U B) : U B :=
  fun w => match m w with
           | (Ok a, w') => k a w'
           | (Raise e, w') => (Raise e, w')
           end.

(** [try: m except Exception as ex: handler ex]. *)
Definition ucatch {A : Type} (m : U A) (handler : exn -> U A) : U A :=
  fun w => match m w with
           | (Ok a, w') => (Ok a, w')
           | (Raise e, w') => handler e w'
           end.

(** A method of the calculator, run on the heap of the world. *)
Definition on_heap {A : Type} (m : M A) : U A :=
  fun w => let '(r, h) := m (heap w) in (r, mkWorld h (calculator w) (ui w)).

Definition of_result {A : Type} (r : result A) : U A := fun w => (r, w).

Definition get_calculator : U EDSMCalculator := fun w => (Ok (calculator w), w).

Definition set_calculator (c : EDSMCalculator) : U unit :=
  fun w => (Ok tt, mkWorld (heap w) c (ui w)).

Definition get_page : U page := fun w => (Ok (ui w), w).

Definition update_page (f : page -> page) : U unit :=
  fun w => (Ok tt, mkWorld (heap w) (calculator w) (f (ui w))).

Declare Scope page_scope.
Delimit Scope page_scope with page.
Notation "x <- m ;; k" := (ubind m (fun x => k))
  (at level 100, m at next level, right associativity) : page_scope.
Notation "m ;;; k" := (ubind m (fun _ => k))
  (at level 100, right associativity) : page_scope.

(** [ui.notify(..)]. *)
Definition notify (n : notice) (p : page) : page :=
  mkPage (jump_range_input p) (system_input p) (systems_rows p) (results p)
         (optimized p) (history_rows p) (notifications p ++ [n]).

(** A change of the panel that [table] and [label] belong to: the
    optimized one when [table == optimized_results_table]. *)
Definition with_panel (is_optimized : bool) (f : Panel.t -> Panel.t)
    (p : page) : page :=
  if is_optimized
  then mkPage (jump_range_input p) (system_input p) (systems_rows p)
              (results p) (f (optimized p)) (history_rows p) (notifications p)
  else mkPage (jump_range_input p) (system_input p) (systems_rows p)
              (f (results p)) (optimized p) (history_rows p) (notifications p).

Definition panel_of (is_optimized : bool) (p : page) : Panel.t :=
  if is_optimized then optimized p else results p.

Definition set_rows (rs : list Row.t) (t : Panel.t) : Panel.t :=
  Panel.mk rs (Panel.total_text t) (Panel.jumps_text t).

Definition append_row (r : Row.t) (t : Panel.t) : Panel.t :=
  Panel.mk (Panel.rows t ++ [r]) (Panel.total_text t) (Panel.jumps_text t).

Definition set_total_text (s : string) (t : Panel.t) : Panel.t :=
  Panel.mk (Panel.rows t) s (Panel.jumps_text t).

Definition set_jumps_text (s : string) (t : Panel.t) : Panel.t :=
  Panel.mk (Panel.rows t) (Panel.total_text t) s.

Definition set_systems_rows (rs : list SystemRow.t) (p : page) : page :=
  mkPage (jump_range_input p) (system_input p) rs (results p)
         (optimized p) (history_rows p) (notifications p).

Definition set_history_rows (rs : list HistoryRow.t) (p : page) : page :=
  mkPage (jump_range_input p) (system_input p) (systems_rows p) (results p)
         (optimized p) rs (notifications p).

Definition set_system_input (v : option string) (p : page) : page :=
  mkPage (jump_range_input p) v (systems_rows p) (results p)
         (optimized p) (history_rows p) (notifications p).

Definition set_jump_range (r : float) (c : EDSMCalculator) : EDSMCalculator :=
  mkCalculator (systems c) (route_log c) r.

Definition set_systems (l : loc) (c : EDSMCalculator) : EDSMCalculator :=
  mkCalculator l (route_log c) (jump_range c).

(** [float(jump_range_input.value or 0)]: an empty field and a zero both
    give [0.0]. *)
Definition entered_jump_range (v : option float) : float :=
  match v with
  | Some r => if is_zero r then zero else r
  | None => zero
  end.

(** The separator of the names in a history row, as the source has it. *)
Definition arrow : string := " â†’ ".

(** The names of a log entry as [str.join] takes them: an item that is not
    a string raises [TypeError]. *)
Fixpoint strings_of (names : list value) : result (list string) :=
  match names with
  | [] => Ok []
  | VStr s :: names' =>
      let? ss := strings_of names' in
      Ok (s :: ss)
  | _ :: _ => Raise TypeError
  end.

(** The list comprehension of [calculate_route] over
    [range(len(optimized_route)-1)]. *)
Fixpoint opt_legs (route : list system) (indices : list nat)
  : result (list leg) :=
  match indices with
  | [] => Ok []
  | i :: indices' =>
      let? a := item route i in
      let? b := item route (S i) in
      let? d := calculate_distance (coordinates a) (coordinates b) in
      let? ls := opt_legs route indices' in
      Ok ((name a, name b, d) :: ls)
  end.

Section Page.

(** [f"{v:.2f}"]: a float with two decimals. *)
Variable format2 : float -> string.

(** [float(s)] on a string, as for the import. *)
Variable float_of_string : string -> option float.

(** The interpreter, for its [sum]. *)
Context {py : Interpreter}.

Local Open Scope page_scope.

Definition format_system_row (s : system) : SystemRow.t :=
  SystemRow.mk (name s)
               (format2 (Coord.x (coordinates s)))
               (format2 (Coord.y (coordinates s)))
               (format2 (Coord.z (coordinates s))).

(** The names of an entry are read from its list object. *)
Definition format_route_row (h : gmap loc obj) (route : Entry.t)
  : result HistoryRow.t :=
  match h !! Entry.systems route with
  | Some (ListNames names) =>
      let? ss := strings_of names in
      Ok (HistoryRow.mk (Entry.timestamp route)
                        (String.concat arrow ss)
                        (format2 (Entry.distance route)))
  | _ => Raise TypeError
  end.

Fixpoint format_route_rows (h : gmap loc obj) (log : list Entry.t)
  : result (list HistoryRow.t) :=
  match log with
  | [] => Ok []
  | route :: log' =>
      let? r := format_route_row h route in
      let? rs := format_route_rows h log' in
      Ok (r :: rs)
  end.

(** The rows are assigned once the whole list is built. *)
Definition update_route_history : U unit :=
  fun w =>
    match heap w !! route_log (calculator w) with
    | Some (ListLog log) =>
        match format_route_rows (heap w) log with
        | Ok rs => update_page (set_history_rows rs) w
        | Raise e => (Raise e, w)
        end
    | _ => (Raise TypeError, w)
    end.

Definition update_systems_table : U unit :=
  c <- get_calculator ;;
  route <- on_heap (get_systems (systems c)) ;;
  update_page (set_systems_rows (map format_system_row route)).

(** The loop of [update_results] over the legs, with its counter
    [total_jumps]; each pass appends its row to the table. *)
Fixpoint results_loop (is_optimized : bool) (jump_range : float)
    (distances : list leg) (total_jumps : Z) : U Z :=
  match distances with
  | [] => uret total_jumps
  | (from_sys, to_sys, distance) :: distances' =>
      jumps <- of_result (if ltb zero jump_range
                          then calculate_jumps distance jump_range
                          else Ok 0) ;;
      (update_page
         (with_panel is_optimized
            (append_row
               (Row.mk from_sys to_sys (format2 distance)
                       (if ltb zero jump_range then JumpCount jumps
                        else NotAvailable)))) ;;;
       results_loop is_optimized jump_range distances' (total_jumps + jumps))
  end.

(** [update_results(distances, total_distance, table, label, jump_range)]:
    [is_optimized] tells which table and label were passed. *)
Definition update_results (distances : list leg) (total_distance : float)
    (is_optimized : bool) (jump_range : float) : U unit :=
  update_page (with_panel is_optimized (set_rows [])) ;;;
  (total_jumps <- results_loop is_optimized jump_range distances 0 ;;
   (update_page
      (with_panel is_optimized
         (set_total_text
            ((if is_optimized then "Optimized " else "")
               +:+ "Total Distance: " +:+ format2 total_distance +:+ " Ly"))) ;;;
    update_page
      (with_panel is_optimized
         (set_jumps_text
            (if ltb zero jump_range
             then "Estimated Jumps: " +:+ pretty total_jumps
             else "Estimated Jumps: N/A"))))).

(** [calculate_route]; [now1] and [now2] are the clock readings of its two
    calls of [log_route]. *)
Definition calculate_route (now1 now2 : string) : U unit :=
  c <- get_calculator ;;
  route <- on_heap (get_systems (systems c)) ;;
  if (length route <? 2)%nat then update_page (notify PleaseAddTwoSystems)
  else
    p <- get_page ;;
    let jump_range := entered_jump_range (jump_range_input p) in
    let c' := set_jump_range jump_range c in
    (set_calculator c' ;;;
     (entered <- on_heap (calculate_route_distances c') ;;
      (on_heap (log_route c' now1 (systems c') (snd entered)) ;;;
       (update_results (fst entered) (snd entered) false jump_range ;;;
        (optimized_route <- on_heap (optimize_route c') ;;
         match optimized_route with
         | None => of_result (Raise TypeError)
         | Some l =>
             items <- on_heap (get_systems l) ;;
             opt_distances <-
               of_result (opt_legs items (seq 0 (length items - 1))) ;;
             let opt_total_distance :=
               builtin_sum (map snd opt_distances) in
             (on_heap (log_route c' now2 l opt_total_distance) ;;;
              (update_results opt_distances opt_total_distance true jump_range ;;;
               update_route_history))
         end))))).

(** [clear_systems]: the live route is rebound to a new empty list. *)
Definition clear_systems : U unit :=
  l <- on_heap (alloc (ListSystems [])) ;;
  c <- get_calculator ;;
  (set_calculator (set_systems l c) ;;;
   (update_systems_table ;;;
    (update_page (with_panel false (set_rows [])) ;;;
     (update_page (with_panel true (set_rows [])) ;;;
      (update_page (with_panel false (set_total_text "Total Distance: 0 Ly")) ;;;
       (update_page
          (with_panel true
             (set_total_text "Optimized Total Distance: 0 Ly")) ;;;
        (update_page (with_panel false (set_jumps_text "Estimated Jumps: 0")) ;;;
         update_page
           (with_panel true (set_jumps_text "Estimated Jumps: 0"))))))))).

(** [handle_upload]; [csv] is the outcome of [pd.read_csv] on the decoded
    content of the upload. *)
Definition handle_upload (now1 now2 : string) (csv : result DataFrame)
  : U unit :=
  ucatch
    (c <- get_calculator ;;
     r <- on_heap (import_route_from_csv float_of_string c csv) ;;
     if fst r then
       (update_page (notify (ImportDone (snd r))) ;;;
        (update_systems_table ;;;
         (route <- on_heap (get_systems (systems c)) ;;
          if (2 <=? length route)%nat then
            if ltb zero (jump_range c) then calculate_route now1 now2
            else update_page (notify EnterValidJumpRange)
          else uret tt)))
     else update_page (notify (ImportFailed (snd r))))
    (fun ex => update_page (notify (ErrorProcessingFile ex))).

(** [add_system]; [system_data] is what [get_system_coordinates] returned
    for the name in the input field, [None] when the lookup failed. *)
Definition add_system (now1 now2 : string) (system_data : option system)
  : U unit :=
  p <- get_page ;;
  match system_input p with
  | None => uret tt
  | Some input =>
      if String.eqb input "" then uret tt
      else
        match system_data with
        | Some s =>
            c <- get_calculator ;;
            (on_heap (extend (systems c) [s]) ;;;
             (update_systems_table ;;;
              (route <- on_heap (get_systems (systems c)) ;;
               ((if (2 <=? length route)%nat then calculate_route now1 now2
                 else uret tt) ;;;
                update_page (set_system_input (Some ""))))))
        | None => update_page (notify (SystemNotFound input))
        end
  end.

End Page.

(** ** Vocabulary of the statements about the import and the pages *)

(** The first cell filed under a label in a list of labelled cells. *)
Fixpoint assoc_get (cells : list (string * value)) (col : string)
  : result value :=
  match cells with
  | [] => Raise KeyError
  | (c, v) :: cells' => if String.eqb c col then Ok v else assoc_get cells' col
  end.

(** The estimate [update_results] takes for one leg, and those it takes
    for a list of legs, up to the first that raises. *)
Definition leg_jumps (jump_range : float) (l : leg) : result Z :=
  if ltb zero jump_range then calculate_jumps (snd l) jump_range else Ok 0.

Fixpoint legs_jumps (jump_range : float) (legs : list leg) : result (list Z) :=
  match legs with
  | [] => Ok []
  | l :: legs' =>
      let? n := leg_jumps jump_range l in
      let? ns := legs_jumps jump_range legs' in
      Ok (n :: ns)
  end.

(** A world with one of the two panels of its page changed. *)
Definition change_panel (is_optimized : bool) (f : Panel.t -> Panel.t)
    (w : world) : world :=
  mkWorld (heap w) (calculator w) (with_panel is_optimized f (ui w)).

Definition append_rows (rs : list Row.t) (t : Panel.t) : Panel.t :=
  Panel.mk (Panel.rows t ++ rs) (Panel.total_text t) (Panel.jumps_text t).

Section PageVocabulary.

Variable format2 : float -> string.

(** The row shown for a leg and its estimate. *)
Definition result_row (jump_range : float) (l : leg) (n : Z) : Row.t :=
  Row.mk (fst (fst l)) (snd (fst l)) (format2 (snd l))
         (if ltb zero jump_range then JumpCount n else NotAvailable).

(** The text of the label of the total. *)
Definition total_text_of (is_optimized : bool) (total_distance : float)
  : string :=
  (if is_optimized then "Optimized " else "")
    +:+ "Total Distance: " +:+ format2 total_distance +:+ " Ly".

End PageVocabulary.

(** ** Vocabulary of the statements about the handlers *)

(** An entry of the log whose names are the strings [ss], as the log
    reads it. *)
Definition named (v : string * list string * float)
  : string * list value * float :=
  (fst (fst v), map VStr (snd (fst v)), snd v).

Definition is_string (v : value) : bool :=
  match v with
  | VStr _ => true
  | _ => false
  end.

(** The name of a system when it is a string. *)
Definition name_string (s : system) : string :=
  match name s with
  | VStr n => n
  | _ => ""
  end.

Definition names_are_strings (route : list system) : bool :=
  forallb (fun s => is_string (name s)) route.

(** For every candidate tour of the route, the legs are there and every
    leg has its estimate. *)
Definition estimates_defined (jump_range : float) (route : list system)
  : bool :=
  match route with
  | [] => true
  | first :: rest =>
      forallb (fun p => match route_distances (first :: p) with
                        | Ok (legs, _) =>
                            match legs_jumps jump_range legs with
                            | Ok _ => true
                            | Raise _ => false
                            end
                        | Raise _ => false
                        end)
              (Itertools.permutations rest)
  end.

(** Every candidate tour of the route has a total, and none of the totals
    is below infinity: each is infinite or NaN. *)
Definition tours_unusable {py : Interpreter} (route : list system)
  : bool :=
  match route with
  | [] => true
  | first :: rest =>
      forallb (fun p => match tour_distance (first :: p) with
                        | Ok t => negb (ltb t inf)
                        | Raise _ => false
                        end)
              (Itertools.permutations rest)
  end.

Section HandlerVocabulary.

Variable format2 : float -> string.

(** The row of the history table for an entry with the names [ss]. *)
Definition history_row (v : string * list string * float) : HistoryRow.t :=
  HistoryRow.mk (fst (fst v)) (String.concat arrow (snd (fst v)))
                (format2 (snd v)).

(** The panel [update_results] leaves for the legs and their estimates. *)
Definition shown (is_optimized : bool) (jump_range : float)
    (legs : list leg) (total_distance : float) (ns : list Z) : Panel.t :=
  Panel.mk (zip_with (result_row format2 jump_range) legs ns)
           (total_text_of format2 is_optimized total_distance)
           (if ltb zero jump_range
            then "Estimated Jumps: " +:+ pretty (foldr Z.add 0 ns)
            else "Estimated Jumps: N/A").

End HandlerVocabulary.

(** A handler that leaves alone the lists of systems, the two list
    attributes of the calculator, the systems table and the input
    fields, whatever its outcome. *)
Definition steady {A : Type} (m : U A) : Prop :=
  forall w r w', m w = (r, w') ->
    systems (calculator w') = systems (calculator w) /\
    route_log (calculator w') = route_log (calculator w) /\
    (forall l its, heap w !! l = Some (ListSystems its) ->
                   heap w' !! l = Some (ListSystems its)) /\
    systems_rows (ui w') = systems_rows (ui w) /\
    system_input (ui w') = system_input (ui w) /\
    jump_range_input (ui w') = jump_range_input (ui w).

(** ** Vocabulary of the statements about the round trip *)

Section RoundTripVocabulary.

Variable float_of_string : string -> option float.

(** What a coordinate may have become on its way through the text. *)
Variable close : float -> float -> Prop.

(** A row read back for a system: the name cell is the name, and each of
    the three other cells is turned by [float] into a number close to the
    coordinate. *)
Definition read_back (s : system) (row : list value) : Prop :=
  exists cx cy cz x y z,
    row = [name s; cx; cy; cz] /\
    py_float float_of_string cx = Ok x /\ close (Coord.x (coordinates s)) x /\
    py_float float_of_string cy = Ok y /\ close (Coord.y (coordinates s)) y /\
    py_float float_of_string cz = Ok z /\ close (Coord.z (coordinates s)) z.

(** The same name, and coordinates close to each other. *)
Definition same_point (s s' : system) : Prop :=
  name s' = name s /\
  close (Coord.x (coordinates s)) (Coord.x (coordinates s')) /\
  close (Coord.y (coordinates s)) (Coord.y (coordinates s')) /\
  close (Coord.z (coordinates s)) (Coord.z (coordinates s')).

End RoundTripVocabulary.

(** A file system on which everything works, and one on which the third
    write raises. *)
Definition working_files : FileSystem :=
  mkFileSystem (Ok tt) (fun _ _ => Ok tt) (Ok tt).

Definition failing_files : FileSystem :=
  mkFileSystem (Ok tt)
               (fun i _ => if (i <? 2)%nat then Ok tt else Raise ValueError)
               (Ok tt).

(** The frame read back from the export of A and B. *)
Definition frame_A_B : DataFrame :=
  mkFrame required_columns (map export_row [sys_A; sys_B]).

(** A frame with one row, whose X field was empty in the text: pandas
    reads an empty field as NaN. *)
Definition frame_gap : DataFrame :=
  mkFrame required_columns
          [[VStr "Gap"; VFloat nan; VFloat zero; VFloat zero]].

(** A system named NA, and the frame that pandas reads from the line
    [NA,0.0,0.0,0.0] under the header: NA is one of the texts it takes
    for a missing value, so the name cell is NaN. *)
Definition sys_NA : system := mkSystem (VStr "NA") (Coord.mk zero zero zero).

Definition frame_NA : DataFrame :=
  mkFrame required_columns
          [[VFloat nan; VFloat zero; VFloat zero; VFloat zero]].

(** ** Sample pages *)

(** A rendering of [.2f]: the exact value rounded to two decimals, ties
    to even. *)
Definition two_digits (n : Z) : string :=
  if n <? 10 then "0" +:+ pretty n else pretty n.

Definition two_decimals (v : float) : string :=
  match v with
  | S754_nan => "nan"
  | S754_infinity s => if s then "-inf" else "inf"
  | S754_zero s => if s then "-0.00" else "0.00"
  | S754_finite s m e =>
      let num := Z.pos m * 2 ^ Z.max e 0 * 100 in
      let den := 2 ^ Z.max (- e) 0 in
      let q := num / den in
      let r := num mod den in
      let n := if 2 * r <? den then q
               else if den <? 2 * r then q + 1
               else if Z.even q then q else q + 1 in
      (if s then "-" else "") +:+ pretty (n / 100) +:+ "."
        +:+ two_digits (n mod 100)
  end.

(** The page as [home] builds it, with a given content of the jump range
    field, and a world with a given live route, an empty log and that
    page. *)
Definition home_page (jump_range_field : option float) : page :=
  mkPage jump_range_field None []
         (Panel.mk [] "Total Distance: 0 Ly" "Estimated Jumps: 0")
         (Panel.mk [] "Optimized Total Distance: 0 Ly" "Estimated Jumps: 0")
         [] [].

Definition world_of (route : list system) (jump_range_field : option float)
  : world :=
  mkWorld (heap_of route) calc (home_page jump_range_field).

(** The frame of B with its columns in another order. *)
Definition frame_B_shuffled : DataFrame :=
  mkFrame ["X"; "System Name"; "Z"; "Y"]%string
          [[VFloat (of_Z 3); VStr "B"; VFloat zero; VFloat zero]].

(** The legs A to A and A to B. *)
Definition leg_A_A : leg := (VStr "A", VStr "A", zero).
Definition leg_A_B : leg := (VStr "A", VStr "B", of_Z 3).

(** Four systems on one line through the origin: the tours A, B, C, D
    and A, C, B, D have the same length, 25 times the root of 10. *)
Definition line_A : system := mkSystem (VStr "A") (point (-1) (-3) 0).
Definition line_B : system := mkSystem (VStr "B") (point 0 0 0).
Definition line_C : system := mkSystem (VStr "C") (point 7 21 0).
Definition line_D : system := mkSystem (VStr "D") (point (-10) (-30) 0).

(** A heap whose log holds one entry, for the route A, B of three light
    years, with a given list of names; and the world with that heap. *)
Definition heap_logged (names : list value) : gmap loc obj :=
  <[3%positive := ListNames names]>
    (<[2%positive := ListLog [Entry.mk "2024-05-01 12:00:00" 3%positive
                                       (of_Z 3)]]>
       (<[1%positive := ListSystems [sys_A; sys_B]]> ∅)).

Definition world_logged (names : list value) : world :=
  mkWorld (heap_logged names) calc (home_page None).

(** A calculator that has not calculated a route yet: its jump range is
    zero.  A world with it, whatever the jump range field holds. *)
Definition calc_new : EDSMCalculator :=
  mkCalculator 1%positive 2%positive zero.

Definition world_new (route : list system) (jump_range_field : option float)
  : world :=
  mkWorld (heap_of route) calc_new (home_page jump_range_field).

(** A world with a name typed into the system field. *)
Definition typing (input : string) (w : world) : world :=
  mkWorld (heap w) (calculator w) (set_system_input (Some input) (ui w)).

(** * Properties *)

(** ** Rounding keeps signs *)

Section Rounding.

Variables p E : Z.

Lemma shr_1_nonneg mrs : 0 <= shr_m mrs -> 0 <= shr_m (shr_1 mrs).
Proof.
  destruct mrs as [m r s]; simpl.
  destruct m as [|q|q]; simpl; try lia; destruct q; simpl; lia.
Qed.

Lemma iter_shr_1_nonneg n mrs :
  0 <= shr_m mrs -> 0 <= shr_m (SpecFloat.iter_pos shr_1 n mrs).
Proof.
  revert mrs; induction n as [n IH|n IH|]; intros mrs H; simpl.
  - apply IH, IH, shr_1_nonneg, H.
  - apply IH, IH, H.
  - apply shr_1_nonneg, H.
Qed.

Lemma shr_fexp_nonneg m e l :
  0 <= m -> 0 <= shr_m (fst (shr_fexp p E m e l)).
Proof.
  intros H. unfold shr_fexp, shr.
  assert (H0 : 0 <= shr_m (shr_record_of_loc m l))
    by (destruct l as [|[]]; simpl; exact H).
  destruct (fexp p E (Zdigits2 m + e) - e); simpl; auto.
  apply iter_shr_1_nonneg, H0.
Qed.

Lemma round_nearest_even_nonneg m l : 0 <= m -> 0 <= round_nearest_even m l.
Proof.
  intros H. destruct l as [|[]]; simpl; try lia.
  destruct (Z.even m); lia.
Qed.

(** Rounding passes the sign on. *)
Lemma binary_round_aux_opp s m e l :
  binary_round_aux p E (negb s) m e l = SFopp (binary_round_aux p E s m e l).
Proof.
  unfold binary_round_aux.
  destruct (shr_fexp p E m e l) as [mrs' e'].
  destruct (shr_fexp p E _ e' loc_Exact) as [mrs'' e''].
  destruct (shr_m mrs''); simpl; auto.
  destruct (e'' <=? E - p); reflexivity.
Qed.

Lemma binary_round_aux_not_nan s m e l :
  0 <= m -> binary_round_aux p E s m e l <> S754_nan.
Proof.
  intros H. unfold binary_round_aux.
  pose proof (shr_fexp_nonneg m e l H) as H1.
  destruct (shr_fexp p E m e l) as [mrs' e']. simpl in H1.
  pose proof (shr_fexp_nonneg _ e' loc_Exact
                (round_nearest_even_nonneg _ (loc_of_shr_record mrs') H1)) as H2.
  destruct (shr_fexp p E _ e' loc_Exact) as [mrs'' e'']. simpl in H2.
  destruct (shr_m mrs''); try discriminate; try lia.
  destruct (e'' <=? E - p); discriminate.
Qed.

Lemma binary_round_aux_nonneg m e l :
  0 <= m -> nonneg (binary_round_aux p E false m e l) = true.
Proof.
  intros H. pose proof (binary_round_aux_not_nan false m e l H) as Hn.
  revert Hn. unfold binary_round_aux.
  destruct (shr_fexp p E m e l) as [mrs' e'].
  destruct (shr_fexp p E _ e' loc_Exact) as [mrs'' e''].
  destruct (shr_m mrs''); simpl; try congruence.
  destruct (e'' <=? E - p); reflexivity.
Qed.

Lemma binary_round_opp s m e :
  binary_round p E (negb s) m e = SFopp (binary_round p E s m e).
Proof.
  unfold binary_round.
  destruct (shl_align m e _) as [mz ez]. apply binary_round_aux_opp.
Qed.

Lemma binary_round_not_nan s m e : binary_round p E s m e <> S754_nan.
Proof.
  unfold binary_round. destruct (shl_align m e _) as [mz ez].
  apply binary_round_aux_not_nan. lia.
Qed.

Lemma binary_normalize_opp m e :
  binary_normalize p E (- m) e false =
  match m with
  | 0 => S754_zero false
  | _ => SFopp (binary_normalize p E m e false)
  end.
Proof.
  destruct m; simpl; auto.
  - apply (binary_round_opp false).
  - apply (binary_round_opp true).
Qed.

Lemma binary_normalize_not_nan m e s :
  binary_normalize p E m e s <> S754_nan.
Proof.
  destruct m; simpl; try discriminate; apply binary_round_not_nan.
Qed.

End Rounding.

(** ** Float arithmetic of [calculate_distance] *)

Lemma leb_zero_nonneg v : leb zero v = nonneg v.
Proof. destruct v as [s|s| |s m e]; try destruct s; reflexivity. Qed.

Lemma nonneg_not_nan v : nonneg v = true -> is_nan v = false.
Proof. destruct v; simpl; congruence. Qed.

Lemma finite_not_nan v : is_finite v = true -> is_nan v = false.
Proof. destruct v; simpl; congruence. Qed.

Lemma float_eqb_refl v : is_nan v = false -> eqb v v = true.
Proof.
  destruct v as [s|s| |s m e]; simpl; try congruence; intros _.
  - reflexivity.
  - destruct s; reflexivity.
  - unfold eqb, SFeqb, SFcompare.
    rewrite Z.compare_refl, Pos.compare_cont_refl. destruct s; reflexivity.
Qed.

Lemma pow2_opp v : pow2 (SFopp v) = pow2 v.
Proof.
  destruct v as [s|s| |s m e]; simpl; auto; destruct s; reflexivity.
Qed.

(** Swapping the operands of a difference does not change its square. *)
Lemma pow2_sub_swap a b : pow2 (sub a b) = pow2 (sub b a).
Proof.
  destruct a as [sa|sa| |sa ma ea], b as [sb|sb| |sb mb eb];
    try (destruct sa, sb; reflexivity); try (destruct sa; reflexivity);
    try (destruct sb; reflexivity); try reflexivity.
  unfold sub, SFsub.
  rewrite (Z.min_comm eb ea).
  set (ez := Z.min ea eb).
  set (A := cond_Zopp sa (Z.pos (fst (shl_align ma ea ez)))).
  set (B := cond_Zopp sb (Z.pos (fst (shl_align mb eb ez)))).
  replace (B - A) with (- (A - B)) by lia.
  rewrite binary_normalize_opp.
  destruct (A - B) eqn:HAB; try reflexivity; symmetry; apply pow2_opp.
Qed.

Lemma sub_finite_not_nan a b :
  is_finite a = true -> is_finite b = true -> is_nan (sub a b) = false.
Proof.
  destruct a as [sa|sa| |sa ma ea], b as [sb|sb| |sb mb eb];
    simpl; try congruence; intros _ _.
  - destruct sa, sb; reflexivity.
  - pose proof (binary_normalize_not_nan prec emax
      (cond_Zopp sa (Z.pos (fst (shl_align ma ea (Z.min ea eb)))) -
       cond_Zopp sb (Z.pos (fst (shl_align mb eb (Z.min ea eb)))))
      (Z.min ea eb) false) as H.
    destruct (binary_normalize _ _ _ _ _); simpl; congruence.
Qed.

Lemma float_sub_diag v : is_finite v = true -> sub v v = zero.
Proof.
  destruct v as [s|s| |s m e]; simpl; try congruence; intros _.
  - destruct s; reflexivity.
  - unfold sub, SFsub. rewrite Z.sub_diag. reflexivity.
Qed.

Lemma pow2_nonneg v :
  is_nan v = false ->
  pow2 v = Raise OverflowError \/ exists r, pow2 v = Ok r /\ nonneg r = true.
Proof.
  destruct v as [s|s| |s m e]; simpl; try congruence; intros _.
  - right. eexists; split; reflexivity.
  - right. eexists; split; reflexivity.
  - unfold mul, SFmul.
    assert (Hs : xorb s s = false) by (destruct s; reflexivity). rewrite Hs.
    pose proof (binary_round_aux_nonneg prec emax (Z.pos (m * m)) (e + e)
                  loc_Exact ltac:(lia)) as H.
    destruct (binary_round_aux _ _ _ _ _ _) as [s'|s'| |s' m' e']; simpl in *;
      try congruence; eauto.
Qed.

Lemma add_nonneg a b :
  nonneg a = true -> nonneg b = true -> nonneg (add a b) = true.
Proof.
  destruct a as [sa|sa| |sa ma ea], b as [sb|sb| |sb mb eb];
    simpl; try congruence; try (destruct sa, sb; simpl; congruence).
  destruct sa, sb; simpl; try congruence. intros _ _.
  unfold add, SFadd, cond_Zopp. simpl Z.add. unfold binary_normalize, binary_round.
  destruct (shl_align _ _ _) as [mz ez].
  apply binary_round_aux_nonneg. lia.
Qed.

Lemma sqrt_nonneg v : nonneg v = true -> nonneg (sqrt v) = true.
Proof.
  destruct v as [s|s| |s m e]; simpl; try congruence;
    destruct s; simpl; try congruence. intros _.
  unfold sqrt, SFsqrt, SFsqrt_core_binary.
  set (e' := Z.min _ _).
  set (m' := match e - 2 * e' with Z.pos _ => _ | 0 => _ | Z.neg _ => _ end).
  assert (Hm : 0 <= m').
  { subst m'. destruct (e - 2 * e'); try lia. apply Z.shiftl_nonneg. lia. }
  pose proof (Z.sqrtrem_spec m' Hm) as Hs.
  destruct (Z.sqrtrem m') as [q r].
  apply binary_round_aux_nonneg. lia.
Qed.

Lemma math_sqrt_nonneg v :
  nonneg v = true -> exists d, math_sqrt v = Ok d /\ nonneg d = true.
Proof.
  intros H. pose proof (sqrt_nonneg v H) as Hd.
  unfold math_sqrt. rewrite (nonneg_not_nan v H), (nonneg_not_nan _ Hd).
  eauto.
Qed.

Lemma calculate_distance_swap a b :
  calculate_distance a b = calculate_distance b a.
Proof.
  unfold calculate_distance.
  rewrite (pow2_sub_swap (Coord.x b)), (pow2_sub_swap (Coord.y b)),
    (pow2_sub_swap (Coord.z b)).
  reflexivity.
Qed.

Lemma calculate_distance_finite a b :
  finite_coords a = true -> finite_coords b = true ->
  calculate_distance a b = Raise OverflowError \/
  exists d, calculate_distance a b = Ok d /\ nonneg d = true.
Proof.
  unfold finite_coords. rewrite !andb_true_iff.
  intros [[Hax Hay] Haz] [[Hbx Hby] Hbz]. unfold calculate_distance.
  destruct (pow2_nonneg _ (sub_finite_not_nan _ _ Hbx Hax)) as [->|[dx [-> Hdx]]];
    [left; reflexivity|]; simpl.
  destruct (pow2_nonneg _ (sub_finite_not_nan _ _ Hby Hay)) as [->|[dy [-> Hdy]]];
    [left; reflexivity|]; simpl.
  destruct (pow2_nonneg _ (sub_finite_not_nan _ _ Hbz Haz)) as [->|[dz [-> Hdz]]];
    [left; reflexivity|]; simpl.
  right. apply math_sqrt_nonneg. auto using add_nonneg.
Qed.

Lemma calculate_distance_diag a :
  finite_coords a = true -> calculate_distance a a = Ok zero.
Proof.
  unfold finite_coords. rewrite !andb_true_iff. intros [[Hx Hy] Hz].
  unfold calculate_distance. rewrite !float_sub_diag by assumption. reflexivity.
Qed.

(** C9, as the code has it.  For systems [s1] and [s2] whose coordinates
    are finite numbers: the distance from [s1] to itself is [0.0]; the
    distance from [s1] to [s2] and the one from [s2] to [s1] have the same
    outcome; unless squaring a coordinate difference overflows, which
    raises [OverflowError], the distance is a number [d] with [0 <= d] and
    [d == d]; and systems with the same coordinates, whatever their names,
    have the same distances. *)
Theorem calculate_distance_metric (s1 s2 : system) :
  finite_coords (coordinates s1) = true ->
  finite_coords (coordinates s2) = true ->
  calculate_distance (coordinates s1) (coordinates s1) = Ok zero /\
  calculate_distance (coordinates s1) (coordinates s2) =
    calculate_distance (coordinates s2) (coordinates s1) /\
  (calculate_distance (coordinates s1) (coordinates s2) = Raise OverflowError \/
   exists d, calculate_distance (coordinates s1) (coordinates s2) = Ok d /\
             leb zero d = true /\ eqb d d = true) /\
  (forall t1 t2 : system,
      coordinates t1 = coordinates s1 -> coordinates t2 = coordinates s2 ->
      calculate_distance (coordinates t1) (coordinates t2) =
      calculate_distance (coordinates s1) (coordinates s2)).
Proof.
  intros H1 H2.
  split; [apply calculate_distance_diag, H1|].
  split; [apply calculate_distance_swap|].
  split.
  - destruct (calculate_distance_finite _ _ H1 H2) as [H|[d [Hd Hn]]];
      [left; exact H|right].
    exists d. split; [exact Hd|]. rewrite leb_zero_nonneg.
    split; [exact Hn|]. apply float_eqb_refl, nonneg_not_nan, Hn.
  - intros t1 t2 -> ->. reflexivity.
Qed.

Lemma calculate_distance_metric_witness :
  finite_coords (coordinates sys_A) = true /\
  finite_coords (coordinates sys_C) = true /\
  calculate_distance (coordinates sys_A) (coordinates sys_C) =
    calculate_distance (coordinates sys_C) (coordinates sys_A).
Proof.
  split; [reflexivity|]. split; [reflexivity|].
  apply (calculate_distance_metric sys_A sys_C); reflexivity.
Defined.

(** The distance from A(0,0,0) to C(3,4,0) is 5.0. *)
Example distance_A_C :
  calculate_distance (coordinates sys_A) (coordinates sys_C) = Ok (of_Z 5).
Proof. vm_compute. reflexivity. Qed.

(** C9 as stated fails on a system with a NaN coordinate: its distance to
    itself is NaN, and [NaN == 0] and [0 <= NaN] are both false. *)
Lemma distance_nan_counterexample :
  calculate_distance (coordinates sys_gap) (coordinates sys_gap) = Ok nan /\
  eqb nan zero = false /\ leb zero nan = false.
Proof. repeat split. Qed.

(** ** [calculate_route_distances] *)

Lemma item_cons a route i : item (a :: route) (S i) = item route i.
Proof. reflexivity. Qed.

Lemma legs_of_cons a b rest :
  legs_of (a :: b :: rest) =
  let? d := calculate_distance (coordinates a) (coordinates b) in
  let? ls := legs_of (b :: rest) in
  Ok ((name a, name b, d) :: ls).
Proof. reflexivity. Qed.

Lemma legs_loop_shift a route idx acc :
  legs_loop (a :: route) (map S idx) acc = legs_loop route idx acc.
Proof.
  revert acc; induction idx as [|i idx IH]; intros [ds t]; auto.
  cbn [map legs_loop legs_step]. rewrite !item_cons.
  destruct (item route i) as [s1|]; cbn [rbind]; auto.
  destruct (item route (S i)) as [s2|]; cbn [rbind]; auto.
  destruct (calculate_distance _ _); cbn [rbind]; auto.
Qed.

(** The index loop computes the legs of the route and adds their distances
    from left to right. *)
Lemma legs_loop_spec route ds t :
  legs_loop route (seq 0 (length route - 1)) (ds, t) =
  let? ls := legs_of route in
  Ok (ds ++ ls, fold_left add (map snd ls) t).
Proof.
  revert ds t; induction route as [|a route IH]; intros ds t.
  - simpl. by rewrite app_nil_r.
  - destruct route as [|b rest].
    + simpl. by rewrite app_nil_r.
    + replace (length (a :: b :: rest) - 1)%nat with (S (length (b :: rest) - 1))
        by (simpl; lia).
      rewrite <- cons_seq, <- seq_shift.
      rewrite legs_of_cons.
      cbn [legs_loop legs_step item lookup list_lookup rbind].
      destruct (calculate_distance (coordinates a) (coordinates b)) as [d|e];
        cbn [rbind]; auto.
      rewrite legs_loop_shift, IH.
      destruct (legs_of (b :: rest)) as [ls|e]; cbn [rbind]; auto.
      by rewrite <- app_assoc.
Qed.

Lemma legs_defined_ok route :
  legs_defined route = true -> exists ls, legs_of route = Ok ls.
Proof.
  induction route as [|a [|b rest] IH]; try (simpl; eauto; fail).
  intros H. rewrite legs_of_cons. cbn [legs_defined] in H.
  destruct (calculate_distance _ _) as [d|]; try discriminate.
  destruct (IH H) as [ls ->]. simpl. eauto.
Qed.

Lemma legs_of_length route ls :
  legs_of route = Ok ls -> length ls = (length route - 1)%nat.
Proof.
  revert ls; induction route as [|a [|b rest] IH]; intros ls H;
    try (inversion H; reflexivity).
  rewrite legs_of_cons in H.
  destruct (calculate_distance _ _) as [d|]; try discriminate.
  destruct (legs_of (b :: rest)) as [ls'|]; try discriminate.
  inversion H; subst. simpl. rewrite (IH ls' eq_refl). simpl. lia.
Qed.

Lemma legs_of_lookup route ls i a b :
  legs_of route = Ok ls ->
  route !! i = Some a -> route !! S i = Some b ->
  exists d, calculate_distance (coordinates a) (coordinates b) = Ok d /\
            ls !! i = Some (name a, name b, d).
Proof.
  revert ls i; induction route as [|x [|y rest] IH]; intros ls i H Ha Hb;
    try (destruct i; simpl in Ha, Hb; discriminate).
  rewrite legs_of_cons in H.
  destruct (calculate_distance (coordinates x) (coordinates y)) as [d|] eqn:Hd;
    try discriminate. cbn [rbind] in H.
  destruct (legs_of (y :: rest)) as [ls'|] eqn:Hl; try discriminate.
  inversion H; subst ls. destruct i as [|i].
  - inversion Ha; inversion Hb; subst. eauto.
  - simpl in Ha, Hb. apply (IH ls' i eq_refl Ha Hb).
Qed.

(** C2, as the code has it.  For a live route of length [n] none of whose
    consecutive pairs makes [calculate_distance] raise,
    [calculate_route_distances] returns, leaving the heap as it was,
    [max(n-1, 0)] legs, the leg at index [i] being the names of the systems
    at [i] and [i+1] and their distance, with the total the sum of the leg
    distances taken from left to right from zero; for [n < 2] the legs are
    empty and the total is zero. *)
Theorem calculate_route_distances_legs self (h : gmap loc obj) route :
  h !! systems self = Some (ListSystems route) ->
  legs_defined route = true ->
  exists legs total,
    calculate_route_distances self h = (Ok (legs, total), h) /\
    length legs = (length route - 1)%nat /\
    (forall i a b, route !! i = Some a -> route !! S i = Some b ->
       exists d, calculate_distance (coordinates a) (coordinates b) = Ok d /\
                 legs !! i = Some (name a, name b, d)) /\
    total = fold_left add (map snd legs) zero /\
    ((length route < 2)%nat -> legs = [] /\ total = zero).
Proof.
  intros Hh Hd. destruct (legs_defined_ok route Hd) as [ls Hls].
  exists ls, (fold_left add (map snd ls) zero).
  split.
  { unfold calculate_route_distances, bind, get_systems, lift, route_distances.
    rewrite Hh, legs_loop_spec, Hls. reflexivity. }
  split; [apply legs_of_length, Hls|].
  split; [intros i a b; apply legs_of_lookup, Hls|].
  split; [reflexivity|].
  intros Hlen. pose proof (legs_of_length route ls Hls) as Hl.
  destruct ls; [split; reflexivity|simpl in Hl; lia].
Qed.

Lemma calculate_route_distances_legs_witness :
  heap_of [sys_A; sys_B; sys_C] !! systems calc =
    Some (ListSystems [sys_A; sys_B; sys_C]) /\
  legs_defined [sys_A; sys_B; sys_C] = true /\
  exists legs total,
    calculate_route_distances calc (heap_of [sys_A; sys_B; sys_C]) =
      (Ok (legs, total), heap_of [sys_A; sys_B; sys_C]) /\
    length legs = 2%nat.
Proof.
  split; [reflexivity|]. split; [reflexivity|].
  destruct (calculate_route_distances_legs calc (heap_of [sys_A; sys_B; sys_C])
              [sys_A; sys_B; sys_C] eq_refl eq_refl)
    as (legs & total & Hrun & Hlen & _).
  exists legs, total. split; [exact Hrun|exact Hlen].
Defined.

(** The route A, B, C has the legs (A, B, 3.0) and (B, C, 4.0) and the
    total 7.0. *)
Example route_distances_A_B_C :
  route_distances [sys_A; sys_B; sys_C] =
  Ok ([(VStr "A", VStr "B", of_Z 3); (VStr "B", VStr "C", of_Z 4)], of_Z 7).
Proof. vm_compute. reflexivity. Qed.

(** C2 as stated fails on a route with a coordinate of 1e200: squaring the
    difference overflows, [**] raises [OverflowError], and no legs are
    returned. *)
Lemma route_distances_overflow_counterexample :
  calculate_route_distances calc (heap_of [sys_A; sys_far]) =
  (Raise OverflowError, heap_of [sys_A; sys_far]).
Proof. vm_compute. reflexivity. Qed.

(** ** The order of floats *)

Lemma compare_key a b :
  is_nan a = false -> is_nan b = false ->
  exists c, SFcompare a b = Some c /\
    match c with
    | Lt => key_lt (key a) (key b)
    | Eq => key a = key b
    | Gt => key_lt (key b) (key a)
    end.
Proof.
  destruct a as [sa|sa| |sa ma ea], b as [sb|sb| |sb mb eb];
    simpl; try congruence; intros _ _;
    try (destruct sa; try destruct sb; eexists; (split; [reflexivity|]);
         unfold key_lt; simpl; try reflexivity; lia).
  destruct sa, sb;
    try (eexists; (split; [reflexivity|]); unfold key_lt; simpl; lia).
  - change (Pos.compare_cont Eq ma mb) with (Pos.compare ma mb).
    destruct (Z.compare_spec ea eb), (Pos.compare_spec ma mb);
      eexists; (split; [reflexivity|]); unfold key_lt; simpl; subst;
      try reflexivity; lia.
  - change (Pos.compare_cont Eq ma mb) with (Pos.compare ma mb).
    destruct (Z.compare_spec ea eb), (Pos.compare_spec ma mb);
      eexists; (split; [reflexivity|]); unfold key_lt; simpl; subst;
      try reflexivity; lia.
Qed.

Lemma ltb_key a b :
  is_nan a = false -> is_nan b = false ->
  (ltb a b = true <-> key_lt (key a) (key b)).
Proof.
  intros Ha Hb. destruct (compare_key a b Ha Hb) as [c [Hc Hk]].
  unfold ltb, SFltb. rewrite Hc.
  destruct (key a) as [[c1 e1] m1], (key b) as [[c2 e2] m2].
  destruct c; simpl in *; split; intros H; try congruence; try lia.
  inversion Hk; lia.
Qed.

Lemma leb_key a b :
  is_nan a = false -> is_nan b = false ->
  (leb a b = true <-> key_le (key a) (key b)).
Proof.
  intros Ha Hb. destruct (compare_key a b Ha Hb) as [c [Hc Hk]].
  unfold leb, SFleb. rewrite Hc.
  destruct (key a) as [[c1 e1] m1], (key b) as [[c2 e2] m2].
  destruct c; simpl in *; split; intros H; try congruence; try lia.
  inversion Hk; lia.
Qed.

Lemma float_ltb_trans a b c :
  is_nan a = false -> is_nan b = false -> is_nan c = false ->
  ltb a b = true -> ltb b c = true -> ltb a c = true.
Proof.
  intros Ha Hb Hc. rewrite !ltb_key by assumption. by_keys.
Qed.

(** [a < b] and not [c < b] give [a < c]. *)
Lemma float_ltb_not_ltb a b c :
  is_nan a = false -> is_nan b = false -> is_nan c = false ->
  ltb a b = true -> ltb c b = false -> ltb a c = true.
Proof.
  intros Ha Hb Hc H1 H2.
  assert (H3 : ~ key_lt (key c) (key b))
    by (rewrite <- ltb_key by assumption; congruence).
  revert H1 H3. rewrite !ltb_key by assumption. by_keys.
Qed.

Lemma float_ltb_leb a b :
  is_nan a = false -> is_nan b = false -> ltb a b = true -> leb a b = true.
Proof.
  intros Ha Hb. rewrite ltb_key, leb_key by assumption. by_keys.
Qed.

Lemma float_not_ltb_leb a b :
  is_nan a = false -> is_nan b = false -> ltb b a = false -> leb a b = true.
Proof.
  intros Ha Hb H.
  assert (H3 : ~ key_lt (key b) (key a))
    by (rewrite <- ltb_key by assumption; congruence).
  revert H3. rewrite leb_key by assumption. by_keys.
Qed.

Lemma float_ltb_irrefl v : ltb v v = false.
Proof.
  destruct (is_nan v) eqn:Hn.
  - destruct v; try discriminate. reflexivity.
  - destruct (ltb v v) eqn:H; [|reflexivity].
    apply ltb_key in H; try assumption. revert H. by_keys.
Qed.

Lemma finite_ltb_inf v : is_finite v = true -> ltb v inf = true.
Proof.
  destruct v as [s|s| |s m e]; simpl; try congruence; destruct s; reflexivity.
Qed.

(** ** [itertools.permutations] enumerates the orderings *)

Module ItertoolsFacts.

Import Itertools.

Section Picks.

Context {A : Type}.
Implicit Types (l r : list A) (a : A).

Lemma picks_split l a r :
  In (a, r) (picks l) <-> exists l1 l2, l = l1 ++ a :: l2 /\ r = l1 ++ l2.
Proof.
  revert a r; induction l as [|b l IH]; intros a r; simpl.
  - split; [tauto|]. intros [l1 [l2 [H _]]]. destruct l1; discriminate.
  - split.
    + intros [H|H].
      * inversion H; subst. exists [], r. auto.
      * apply in_map_iff in H. destruct H as [[a' r'] [H1 H2]].
        simpl in H1. inversion H1; subst.
        apply IH in H2. destruct H2 as [l1 [l2 [-> ->]]].
        exists (b :: l1), l2. auto.
    + intros [l1 [l2 [H1 H2]]]. destruct l1 as [|b' l1]; simpl in *.
      * inversion H1; subst. auto.
      * inversion H1; subst. right. apply in_map_iff.
        exists (a, l1 ++ l2). split; [reflexivity|].
        apply IH. eauto.
Qed.

Lemma picks_length l a r : In (a, r) (picks l) -> length l = S (length r).
Proof.
  rewrite picks_split. intros [l1 [l2 [-> ->]]].
  rewrite !length_app. simpl. lia.
Qed.

Lemma picks_perm l a r : In (a, r) (picks l) -> Permutation l (a :: r).
Proof.
  rewrite picks_split. intros [l1 [l2 [-> ->]]].
  symmetry. apply Permutation_middle.
Qed.

(** Every element of the enumeration is an ordering of the input. *)
Lemma permutations_of_length_sound n l p :
  length l = n -> In p (permutations_of_length n l) -> Permutation l p.
Proof.
  revert l p; induction n as [|n IH]; intros l p Hn Hp; simpl in Hp.
  - destruct l; [|discriminate]. destruct Hp as [<-|[]]. constructor.
  - apply in_flat_map in Hp. destruct Hp as [[a r] [Hin Hp]].
    apply in_map_iff in Hp. destruct Hp as [p' [<- Hp']]. simpl in *.
    rewrite (picks_perm l a r Hin). constructor.
    apply IH; [|exact Hp']. apply picks_length in Hin. lia.
Qed.

(** Every ordering of the input is enumerated. *)
Lemma permutations_of_length_complete n l p :
  length l = n -> Permutation l p -> In p (permutations_of_length n l).
Proof.
  revert l p; induction n as [|n IH]; intros l p Hn Hp; simpl.
  - destruct l; [|discriminate]. apply Permutation_nil in Hp. auto.
  - destruct p as [|a p].
    { apply Permutation_length in Hp. simpl in Hp. lia. }
    assert (Ha : In a l).
    { apply (Permutation_in a (Permutation_sym Hp)). left; reflexivity. }
    apply in_split in Ha. destruct Ha as [l1 [l2 ->]].
    apply in_flat_map. exists (a, l1 ++ l2). split.
    + apply picks_split. eauto.
    + apply in_map_iff. exists p. split; [reflexivity|]. apply IH.
      * simpl. rewrite length_app in *. simpl in Hn. lia.
      * apply Permutation_cons_inv with a.
        rewrite <- Hp. apply Permutation_middle.
Qed.

Lemma permutations_sound l p : In p (permutations l) -> Permutation l p.
Proof. apply permutations_of_length_sound; reflexivity. Qed.

Lemma permutations_complete l p : Permutation l p -> In p (permutations l).
Proof. apply permutations_of_length_complete; reflexivity. Qed.

Lemma permutations_nonempty l : permutations l <> [].
Proof.
  intros H. pose proof (permutations_complete l l (Permutation_refl l)) as Hin.
  rewrite H in Hin. destruct Hin.
Qed.

End Picks.

End ItertoolsFacts.

(** The orderings of three elements come by position, as those of
    [itertools.permutations]. *)
Example permutations_of_three :
  Itertools.permutations [1; 2; 3] =
  [[1; 2; 3]; [1; 3; 2]; [2; 1; 3]; [2; 3; 1]; [3; 1; 2]; [3; 2; 1]].
Proof. reflexivity. Qed.

(** ** The scan for the first shortest candidate *)

Section Scan.

Variable first : system.

Lemma scan_default {py : Interpreter} perms sd sr :
  scan first perms sd sr =
  match scan first perms sd None with
  | Some b => Some b
  | None => sr
  end.
Proof.
  revert sd sr; induction perms as [|p perms IH]; intros sd sr; simpl; auto.
  destruct (ltb (score first p) sd); [|apply IH].
  rewrite (IH (score first p) (Some p)).
  destruct (scan first perms (score first p) None); reflexivity.
Qed.

(** Either no candidate is below the bound, or the scan keeps the first of
    the candidates with the least score: strictly below all candidates
    before it, and with none of those after it below it. *)
Lemma scan_first_min {py : Interpreter} perms sd :
  Forall (fun p => is_nan (score first p) = false) perms ->
  is_nan sd = false ->
  (scan first perms sd None = None /\
   Forall (fun p => ltb (score first p) sd = false) perms)
  \/
  (exists pre best post,
      perms = pre ++ best :: post /\
      scan first perms sd None = Some best /\
      ltb (score first best) sd = true /\
      Forall (fun q => ltb (score first best) (score first q) = true) pre /\
      Forall (fun q => ltb (score first q) (score first best) = false) post).
Proof.
  revert sd; induction perms as [|p perms IH]; intros sd Hn Hsd.
  - left. split; [reflexivity|constructor].
  - inversion Hn as [|? ? Hp Hn']; subst. simpl.
    destruct (ltb (score first p) sd) eqn:Hlt.
    + rewrite scan_default.
      destruct (IH (score first p) Hn' Hp)
        as [[-> Hall]|[pre [best [post (-> & -> & Hb & Hpre & Hpost)]]]];
        right.
      * exists [], p, perms. repeat split; auto.
      * exists (p :: pre), best, post.
        apply Forall_app in Hn'. destruct Hn' as [_ Hn'].
        inversion Hn'; subst.
        repeat split; auto.
        apply (float_ltb_trans _ (score first p)); auto.
    + destruct (IH sd Hn' Hsd)
        as [[-> Hall]|[pre [best [post (-> & -> & Hb & Hpre & Hpost)]]]].
      * left. split; auto.
      * right. exists (p :: pre), best, post.
        apply Forall_app in Hn'. destruct Hn' as [_ Hn'].
        inversion Hn'; subst.
        repeat split; auto. constructor; auto.
        apply (float_ltb_not_ltb _ sd); auto.
Qed.

End Scan.

(** ** The loop of [optimize_route] on the heap *)

Lemma fresh_unused (h : gmap loc obj) : h !! fresh (dom h) = None.
Proof. apply not_elem_of_dom, is_fresh. Qed.

Lemma alloc_keeps (h : gmap loc obj) o l o' :
  h !! l = Some o' -> <[fresh (dom h) := o]> h !! l = Some o'.
Proof.
  intros H. rewrite lookup_insert_ne; [exact H|].
  intros <-. rewrite fresh_unused in H. discriminate.
Qed.

Lemma search_cons {py : Interpreter} first p perms sd sr h :
  search first (p :: perms) sd sr h =
  let l := fresh (dom h) in
  let h1 := <[l := ListSystems (first :: p)]> h in
  match tour_distance (first :: p) with
  | Ok t => if ltb t sd then search first perms t (Some l) h1
            else search first perms sd sr h1
  | Raise e => (Raise e, h1)
  end.
Proof.
  cbn [search]. unfold bind, alloc, lift. cbn [app].
  destruct (tour_distance (first :: p)) as [t|e]; [|reflexivity].
  destruct (ltb t sd); reflexivity.
Qed.

(** Whatever the loop does, it only adds list objects, and the list it
    hands back is the one it was given or one it has built from a
    candidate. *)
Lemma search_frame {py : Interpreter} first perms sd sr h r h' :
  search first perms sd sr h = (r, h') ->
  (forall l o, h !! l = Some o -> h' !! l = Some o) /\
  (forall l, r = Ok (Some l) ->
     sr = Some l \/
     (h !! l = None /\
      exists p, In p perms /\ h' !! l = Some (ListSystems (first :: p)))).
Proof.
  revert sd sr h; induction perms as [|p perms IH]; intros sd sr h.
  - cbn. intros [= <- <-]. split; [auto|]. intros l [= ->]. auto.
  - rewrite search_cons. cbn zeta.
    set (l0 := fresh (dom h)). set (h1 := <[l0 := _]> h).
    assert (Hk : forall l o, h !! l = Some o -> h1 !! l = Some o)
      by (intros; apply alloc_keeps; assumption).
    assert (H0 : h1 !! l0 = Some (ListSystems (first :: p)))
      by apply lookup_insert_eq.
    destruct (tour_distance (first :: p)) as [t|e].
    + destruct (ltb t sd); intros Hs; apply IH in Hs; destruct Hs as [Hm Hr];
        (split; [auto|]); intros l Hl; destruct (Hr l Hl) as [Hsr|[Hn [q [Hq Hh]]]].
      * inversion Hsr; subst l. right. split; [apply fresh_unused|].
        exists p. split; [left; reflexivity|]. auto.
      * right. split.
        { destruct (h !! l) eqn:E; [|reflexivity].
          apply Hk in E. congruence. }
        exists q. split; [right; assumption|assumption].
      * auto.
      * right. split.
        { destruct (h !! l) eqn:E; [|reflexivity].
          apply Hk in E. congruence. }
        exists q. split; [right; assumption|assumption].
    + intros [= <- <-]. split; [auto|]. intros l [=].
Qed.

(** When every candidate tour has a total, the loop ends, with the
    candidate the scan selects. *)
Lemma search_scan {py : Interpreter} first perms sd sr h :
  Forall (fun p => exists t, tour_distance ([first] ++ p) = Ok t) perms ->
  exists res h',
    search first perms sd sr h = (Ok res, h') /\
    match scan first perms sd None with
    | None => res = sr
    | Some best =>
        exists l, res = Some l /\
                  h' !! l = Some (ListSystems (first :: best))
    end.
Proof.
  revert sd sr h; induction perms as [|p perms IH]; intros sd sr h Hall.
  - exists sr, h. split; reflexivity.
  - inversion Hall as [|? ? [t Ht] Hall']; subst.
    rewrite search_cons. cbn zeta. cbn [scan]. unfold score.
    cbn [app] in Ht |- *. rewrite Ht.
    set (l0 := fresh (dom h)). set (h1 := <[l0 := _]> h).
    destruct (ltb t sd).
    + destruct (IH t (Some l0) h1 Hall') as [res [h' [Hs Hres]]].
      exists res, h'. split; [exact Hs|].
      rewrite scan_default.
      destruct (scan first perms t None) as [best|]; [exact Hres|].
      subst res. exists l0. split; [reflexivity|].
      apply search_frame in Hs. destruct Hs as [Hm _].
      apply Hm. apply lookup_insert_eq.
    + destruct (IH sd sr h1 Hall') as [res [h' [Hs Hres]]].
      exists res, h'. split; [exact Hs|exact Hres].
Qed.

Lemma tour_finite_score {py : Interpreter} first p :
  tour_finite first p = true ->
  tour_distance (first :: p) = Ok (score first p) /\
  is_finite (score first p) = true.
Proof.
  unfold tour_finite, score. cbn [app].
  destruct (tour_distance (first :: p)); [auto|discriminate].
Qed.

Lemma optimize_route_short {py : Interpreter} self (h : gmap loc obj)
    route :
  h !! systems self = Some (ListSystems route) ->
  (length route < 2)%nat ->
  optimize_route self h = (Ok (Some (systems self)), h).
Proof.
  intros Hh Hlen. unfold optimize_route, bind, get_systems. rewrite Hh.
  destruct (Nat.ltb_spec (length route) 2); [reflexivity|lia].
Qed.

Lemma optimize_route_long {py : Interpreter} self (h : gmap loc obj)
    first rest :
  h !! systems self = Some (ListSystems (first :: rest)) ->
  (2 <= length (first :: rest))%nat ->
  optimize_route self h =
  search first (Itertools.permutations rest) inf None h.
Proof.
  intros Hh Hlen. unfold optimize_route, bind, get_systems. rewrite Hh.
  destruct (Nat.ltb_spec (length (first :: rest)) 2); [lia|].
  cbn. destruct (search _ _ _ _ _) as [[r|e] h']; reflexivity.
Qed.

(** With two systems or more and a finite total for every candidate tour,
    the result is the first system followed by the first of the shortest
    orderings of the others. *)
Lemma optimize_route_first_shortest {py : Interpreter} self
    (h : gmap loc obj) first rest :
  h !! systems self = Some (ListSystems (first :: rest)) ->
  tours_finite (first :: rest) = true ->
  (2 <= length (first :: rest))%nat ->
  exists best l h' pre post,
    optimize_route self h = (Ok (Some l), h') /\
    h' !! l = Some (ListSystems (first :: best)) /\
    Permutation rest best /\
    Itertools.permutations rest = pre ++ best :: post /\
    (forall q, In q pre ->
       exists tb tq, tour_distance (first :: best) = Ok tb /\
                     tour_distance (first :: q) = Ok tq /\
                     ltb tb tq = true) /\
    (forall p, Permutation rest p ->
       exists tb tp, tour_distance (first :: best) = Ok tb /\
                     tour_distance (first :: p) = Ok tp /\
                     leb tb tp = true).
Proof.
  intros Hh Hfin Hlen. cbn [tours_finite] in Hfin.
  assert (Hall : Forall (fun p => tour_finite first p = true)
                        (Itertools.permutations rest)).
  { apply Forall_forall. intros p Hp. apply list_elem_of_In in Hp.
    rewrite forallb_forall in Hfin. auto. }
  assert (Hok : Forall (fun p => exists t, tour_distance ([first] ++ p) = Ok t)
                       (Itertools.permutations rest)).
  { eapply Forall_impl; [exact Hall|]. intros p Hp.
    destruct (tour_finite_score _ _ Hp) as [Ht _]. eauto. }
  assert (Hnn : Forall (fun p => is_nan (score first p) = false)
                       (Itertools.permutations rest)).
  { eapply Forall_impl; [exact Hall|]. intros p Hp.
    destruct (tour_finite_score _ _ Hp) as [_ Hf]. apply finite_not_nan, Hf. }
  destruct (search_scan first _ inf None h Hok) as [res [h' [Hs Hres]]].
  destruct (scan_first_min first _ inf Hnn eq_refl)
    as [[_ Hno]|[pre [best [post (Hsplit & Hscan & Hb & Hpre & Hpost)]]]].
  - exfalso.
    destruct (Itertools.permutations rest) as [|p ps] eqn:E.
    + exact (ItertoolsFacts.permutations_nonempty rest E).
    + inversion Hno as [|? ? Hp _]; inversion Hall as [|? ? Hf _]; subst.
      destruct (tour_finite_score _ _ Hf) as [_ Hf'].
      rewrite (finite_ltb_inf _ Hf') in Hp. discriminate.
  - rewrite Hscan in Hres. destruct Hres as [l [-> Hl]].
    assert (Hin : forall q, In q (Itertools.permutations rest) ->
                  tour_distance (first :: q) = Ok (score first q) /\
                  is_nan (score first q) = false).
    { intros q Hq. apply list_elem_of_In in Hq.
      rewrite Forall_forall in Hall. specialize (Hall q Hq).
      destruct (tour_finite_score _ _ Hall) as [Ht Hf].
      split; [exact Ht|apply finite_not_nan, Hf]. }
    assert (Hbest : In best (Itertools.permutations rest))
      by (rewrite Hsplit; apply in_elt).
    destruct (Hin best Hbest) as [Htb Hnb].
    exists best, l, h', pre, post.
    split; [rewrite (optimize_route_long self h first rest Hh Hlen); exact Hs|].
    split; [exact Hl|].
    split; [apply ItertoolsFacts.permutations_sound, Hbest|].
    split; [exact Hsplit|].
    split.
    + intros q Hq. exists (score first best), (score first q).
      split; [exact Htb|].
      split; [apply Hin; rewrite Hsplit; apply in_or_app; left; exact Hq|].
      rewrite Forall_forall in Hpre. apply Hpre, list_elem_of_In, Hq.
    + intros p Hp. apply ItertoolsFacts.permutations_complete in Hp.
      destruct (Hin p Hp) as [Htp Hnp].
      exists (score first best), (score first p).
      split; [exact Htb|]. split; [exact Htp|].
      rewrite Hsplit in Hp. apply in_app_or in Hp.
      destruct Hp as [Hp|[<-|Hp]].
      * apply float_ltb_leb; auto.
        rewrite Forall_forall in Hpre. apply Hpre, list_elem_of_In, Hp.
      * apply float_not_ltb_leb; auto. apply float_ltb_irrefl.
      * apply float_not_ltb_leb; auto.
        rewrite Forall_forall in Hpost. apply Hpost, list_elem_of_In, Hp.
Qed.

(** C1, as the code has it.  Let the live route have a finite total for
    every candidate tour.  If it has fewer than two systems,
    [optimize_route] returns the live route itself.  Otherwise it returns
    a list whose first element is the route's first system [first],
    followed by an ordering [best] of the remaining systems [rest]; the
    total of this tour is less than or equal to the total of the tour of
    every ordering [p] of [rest]; and [best] is the first of the shortest
    in the enumeration of [itertools.permutations]: every candidate
    before it has a strictly greater total. *)
Theorem optimize_route_shortest {py : Interpreter} self
    (h : gmap loc obj) route :
  h !! systems self = Some (ListSystems route) ->
  tours_finite route = true ->
  ((length route < 2)%nat ->
   optimize_route self h = (Ok (Some (systems self)), h)) /\
  ((2 <= length route)%nat ->
   exists first rest best l h' pre post,
     route = first :: rest /\
     optimize_route self h = (Ok (Some l), h') /\
     h' !! l = Some (ListSystems (first :: best)) /\
     Permutation rest best /\
     Itertools.permutations rest = pre ++ best :: post /\
     (forall q, In q pre ->
        exists tb tq, tour_distance (first :: best) = Ok tb /\
                      tour_distance (first :: q) = Ok tq /\
                      ltb tb tq = true) /\
     (forall p, Permutation rest p ->
        exists tb tp, tour_distance (first :: best) = Ok tb /\
                      tour_distance (first :: p) = Ok tp /\
                      leb tb tp = true)).
Proof.
  intros Hh Hfin. split; [apply optimize_route_short; assumption|].
  intros Hlen. destruct route as [|first rest]; [simpl in Hlen; lia|].
  destruct (optimize_route_first_shortest self h first rest Hh Hfin Hlen)
    as (best & l & h' & pre & post & H).
  exists first, rest, best, l, h', pre, post. split; [reflexivity|exact H].
Qed.

(** The samples are run with the [sum] that adds from left to right. *)
Section OptimizeRouteSamples.

#[local] Existing Instance cpython_3_11.

Lemma optimize_route_shortest_witness :
  heap_of [sys_A; sys_C; sys_B] !! systems calc =
    Some (ListSystems [sys_A; sys_C; sys_B]) /\
  tours_finite [sys_A; sys_C; sys_B] = true /\
  exists best l h',
    optimize_route calc (heap_of [sys_A; sys_C; sys_B]) = (Ok (Some l), h') /\
    h' !! l = Some (ListSystems (sys_A :: best)) /\
    Permutation [sys_C; sys_B] best.
Proof.
  split; [reflexivity|]. split; [reflexivity|].
  destruct (optimize_route_shortest (py := cpython_3_11) calc
              (heap_of [sys_A; sys_C; sys_B])
              [sys_A; sys_C; sys_B] eq_refl eq_refl) as [_ H].
  destruct (H ltac:(simpl; lia))
    as (first & rest & best & l & h' & pre & post & Hroute & Hrun & Hl & Hp & _).
  inversion Hroute; subst first rest.
  exists best, l, h'. split; [exact Hrun|]. split; [exact Hl|exact Hp].
Defined.

(** Entered as A, C, B, the three systems are returned as A, B, C, in a
    new list object. *)
Example optimize_route_A_C_B :
  (optimize_route calc (heap_of [sys_A; sys_C; sys_B])).1 = Ok (Some 4%positive) /\
  (optimize_route calc (heap_of [sys_A; sys_C; sys_B])).2 !! 4%positive =
    Some (ListSystems [sys_A; sys_B; sys_C]).
Proof. split; vm_compute; reflexivity. Qed.

(** C1 as stated fails on a route with a NaN coordinate: no total is below
    [inf], and [optimize_route] returns [None]. *)
Lemma optimize_route_nan_counterexample :
  (optimize_route calc (heap_of [sys_A; sys_gap])).1 = Ok None.
Proof. vm_compute. reflexivity. Qed.

(** The same happens when every total is [inf], as on a route to a system
    with large finite coordinates; and a square that overflows raises. *)
Example optimize_route_wide :
  tour_distance [sys_A; sys_wide] = Ok inf /\
  (optimize_route calc (heap_of [sys_A; sys_wide])).1 = Ok None.
Proof. split; vm_compute; reflexivity. Qed.

Example optimize_route_far :
  (optimize_route calc (heap_of [sys_A; sys_far])).1 = Raise OverflowError.
Proof. vm_compute. reflexivity. Qed.

(** With the compensated [sum] the three outcomes are the same. *)
Example optimize_route_none_on_3_12 :
  (optimize_route (py := cpython_3_12) calc (heap_of [sys_A; sys_gap])).1 =
    Ok None /\
  (optimize_route (py := cpython_3_12) calc (heap_of [sys_A; sys_wide])).1 =
    Ok None /\
  (optimize_route (py := cpython_3_12) calc (heap_of [sys_A; sys_far])).1 =
    Raise OverflowError.
Proof. repeat split; vm_compute; reflexivity. Qed.

End OptimizeRouteSamples.

(** C8.  Let the live route be the list [route].  After [optimize_route],
    whatever its outcome, the live route is the list [route] as before and
    every list object of the heap is as before.  For fewer than two
    systems the result is the live route itself.  For two or more, a list
    that is returned is a new object: not the live route, and at a
    location that was unused before; it holds the first system followed by
    an ordering of the others; and a list is returned whenever every
    candidate tour has a finite total. *)
Theorem optimize_route_frame {py : Interpreter} self
    (h : gmap loc obj) route :
  h !! systems self = Some (ListSystems route) ->
  (optimize_route self h).2 !! systems self = Some (ListSystems route) /\
  (forall l o, h !! l = Some o -> (optimize_route self h).2 !! l = Some o) /\
  ((length route < 2)%nat ->
   optimize_route self h = (Ok (Some (systems self)), h)) /\
  ((2 <= length route)%nat ->
   forall l, (optimize_route self h).1 = Ok (Some l) ->
     l <> systems self /\ h !! l = None /\
     exists first rest best,
       route = first :: rest /\ Permutation rest best /\
       (optimize_route self h).2 !! l = Some (ListSystems (first :: best))) /\
  ((2 <= length route)%nat -> tours_finite route = true ->
   exists l, (optimize_route self h).1 = Ok (Some l)).
Proof.
  intros Hh.
  assert (Hkeep : forall l o, h !! l = Some o ->
                  (optimize_route self h).2 !! l = Some o).
  { destruct (Nat.lt_ge_cases (length route) 2) as [Hlen|Hlen].
    - rewrite (optimize_route_short self h route Hh Hlen). auto.
    - destruct route as [|first rest]; [simpl in Hlen; lia|].
      rewrite (optimize_route_long self h first rest Hh Hlen).
      destruct (search first _ inf None h) as [r h'] eqn:Hs.
      apply search_frame in Hs. apply Hs. }
  split; [apply Hkeep, Hh|]. split; [exact Hkeep|].
  split; [apply optimize_route_short; assumption|].
  split; cycle 1.
  { intros Hlen Hfin. destruct route as [|first rest]; [simpl in Hlen; lia|].
    destruct (optimize_route_first_shortest self h first rest Hh Hfin Hlen)
      as (best & l & h' & pre & post & -> & _).
    exists l. reflexivity. }
  intros Hlen l. destruct route as [|first rest]; [simpl in Hlen; lia|].
  rewrite (optimize_route_long self h first rest Hh Hlen).
  destruct (search first _ inf None h) as [r h'] eqn:Hs. cbn [fst snd].
  intros ->. apply search_frame in Hs. destruct Hs as [_ Hr].
  destruct (Hr l eq_refl) as [Hnone|[Hfresh [p [Hp Hl]]]]; [discriminate|].
  split; [intros ->; congruence|]. split; [exact Hfresh|].
  exists first, rest, p. split; [reflexivity|].
  split; [apply ItertoolsFacts.permutations_sound, Hp|exact Hl].
Qed.

(** Run with the [sum] that adds from left to right. *)
Section FrameSamples.

#[local] Existing Instance cpython_3_11.

Lemma optimize_route_frame_witness :
  heap_of [sys_A; sys_C; sys_B] !! systems calc =
    Some (ListSystems [sys_A; sys_C; sys_B]) /\
  (optimize_route calc (heap_of [sys_A; sys_C; sys_B])).2 !! systems calc =
    Some (ListSystems [sys_A; sys_C; sys_B]).
Proof.
  split; [reflexivity|].
  destruct (optimize_route_frame calc (heap_of [sys_A; sys_C; sys_B])
              [sys_A; sys_C; sys_B] eq_refl) as [H _].
  exact H.
Defined.

End FrameSamples.

(** ** The route log *)

Lemma entries_view_mono (h1 h2 : gmap loc obj) es vs :
  (forall l names, h1 !! l = Some (ListNames names) ->
                   h2 !! l = Some (ListNames names)) ->
  entries_view h1 es = Some vs -> entries_view h2 es = Some vs.
Proof.
  intros Hm. revert vs; induction es as [|e es IH]; intros vs; simpl; auto.
  unfold entry_view.
  destruct (h1 !! Entry.systems e) as [[| names |]|] eqn:E; try discriminate.
  rewrite (Hm _ _ E).
  destruct (entries_view h1 es) as [vs'|]; try discriminate.
  rewrite (IH vs' eq_refl). auto.
Qed.

Lemma entries_view_app h es1 es2 vs1 vs2 :
  entries_view h es1 = Some vs1 -> entries_view h es2 = Some vs2 ->
  entries_view h (es1 ++ es2) = Some (vs1 ++ vs2).
Proof.
  revert vs1; induction es1 as [|e es1 IH]; intros vs1; simpl.
  - intros [= <-]. auto.
  - destruct (entry_view h e) as [v|]; try discriminate.
    destruct (entries_view h es1) as [vs|]; try discriminate.
    intros [= <-] H2. rewrite (IH vs eq_refl H2). reflexivity.
Qed.

(** A heap that has the same log object and the same name lists reads the
    same log, whatever became of the lists of systems. *)
Lemma log_view_frame self (h h2 : gmap loc obj) vs :
  log_view h self = Some vs ->
  h2 !! route_log self = h !! route_log self ->
  (forall l ns, h !! l = Some (ListNames ns) -> h2 !! l = Some (ListNames ns)) ->
  log_view h2 self = Some vs.
Proof.
  unfold log_view. intros Hv -> Hn.
  destruct (h !! route_log self) as [[| |es]|]; try discriminate.
  apply entries_view_mono with h; assumption.
Qed.

(** C10.  Let [route] be a list of systems [items], and let the log read
    [vs].  A call of [log_route] returns, having built one new list object
    [names] that holds the names of [items], and having appended to the
    log exactly one entry, with the time, [names] and the distance given;
    the log then reads [vs] followed by that entry.  It keeps reading so
    in every later heap in which the log object and the name lists are as
    they were, whatever is done to the lists of systems; in particular
    after any list of systems, the passed route or the live route, is
    given new contents. *)
Theorem log_route_snapshot self now route total (h : gmap loc obj) items vs :
  h !! route = Some (ListSystems items) ->
  log_view h self = Some vs ->
  exists names h',
    log_route self now route total h = (Ok tt, h') /\
    h !! names = None /\
    h' !! names = Some (ListNames (map name items)) /\
    (exists es, h !! route_log self = Some (ListLog es) /\
       h' !! route_log self =
       Some (ListLog (es ++ [Entry.mk now names total]))) /\
    log_view h' self = Some (vs ++ [(now, map name items, total)]) /\
    (forall h2 : gmap loc obj,
        h2 !! route_log self = h' !! route_log self ->
        (forall l ns, h' !! l = Some (ListNames ns) ->
                      h2 !! l = Some (ListNames ns)) ->
        log_view h2 self = log_view h' self) /\
    (forall k items0 items1,
        h' !! k = Some (ListSystems items0) ->
        log_view (<[k := ListSystems items1]> h') self = log_view h' self).
Proof.
  intros Hr Hv. unfold log_view in Hv.
  destruct (h !! route_log self) as [[| |es]|] eqn:Hlog; try discriminate.
  set (names := fresh (dom h)).
  set (h1 := <[names := ListNames (map name items)]> h).
  set (e := Entry.mk now names total).
  set (h' := <[route_log self := ListLog (es ++ [e])]> h1).
  assert (Hfresh : h !! names = None) by apply fresh_unused.
  assert (Hne : names <> route_log self) by (intros E; congruence).
  assert (H1log : h1 !! route_log self = Some (ListLog es)).
  { unfold h1. rewrite lookup_insert_ne; auto. }
  assert (Hrun : log_route self now route total h = (Ok tt, h')).
  { unfold log_route, bind, get_systems, alloc, append_log. rewrite Hr.
    fold names. fold h1. rewrite H1log. reflexivity. }
  assert (Hnames : h' !! names = Some (ListNames (map name items))).
  { unfold h'. rewrite lookup_insert_ne by auto. apply lookup_insert_eq. }
  assert (Hlog' : h' !! route_log self = Some (ListLog (es ++ [e])))
    by apply lookup_insert_eq.
  assert (Hview : log_view h' self =
                  Some (vs ++ [(now, map name items, total)])).
  { unfold log_view. rewrite Hlog'. apply entries_view_app.
    - apply entries_view_mono with h; [|exact Hv].
      intros l ns Hl. unfold h', h1.
      rewrite !lookup_insert_ne; auto; intros <-; congruence.
    - simpl. unfold entry_view. simpl. rewrite Hnames. reflexivity. }
  exists names, h'. split; [exact Hrun|]. split; [exact Hfresh|].
  split; [exact Hnames|]. split; [exists es; auto|].
  split; [exact Hview|].
  assert (Hframe : forall h2 : gmap loc obj,
             h2 !! route_log self = h' !! route_log self ->
             (forall l ns, h' !! l = Some (ListNames ns) ->
                           h2 !! l = Some (ListNames ns)) ->
             log_view h2 self = log_view h' self).
  { intros h2 H1 H2. rewrite Hview. eapply log_view_frame; eauto. }
  split; [exact Hframe|].
  intros k items0 items1 Hk. apply Hframe.
  - apply lookup_insert_ne. intros ->. congruence.
  - intros l ns Hl. rewrite lookup_insert_ne; auto. intros <-. congruence.
Qed.

Lemma log_route_snapshot_witness :
  heap_of [sys_A; sys_B] !! systems calc = Some (ListSystems [sys_A; sys_B]) /\
  log_view (heap_of [sys_A; sys_B]) calc = Some [] /\
  exists names h',
    log_route calc "2024-01-01 12:00:00" (systems calc) (of_Z 3)
              (heap_of [sys_A; sys_B]) = (Ok tt, h') /\
    h' !! names = Some (ListNames [VStr "A"; VStr "B"]).
Proof.
  split; [reflexivity|]. split; [reflexivity|].
  destruct (log_route_snapshot calc "2024-01-01 12:00:00" (systems calc)
              (of_Z 3) (heap_of [sys_A; sys_B]) [sys_A; sys_B] []
              eq_refl eq_refl)
    as (names & h' & Hrun & _ & Hnames & _).
  exists names, h'. split; [exact Hrun|exact Hnames].
Defined.

(** ** [calculate_jumps] *)

Lemma leb_zero_not_ltb r : leb r zero = true -> ltb zero r = false.
Proof. destruct r as [s|s| |s m e]; try destruct s; cbv; congruence. Qed.

Lemma ltb_zero_not_leb r : ltb zero r = true -> leb r zero = false.
Proof. destruct r as [s|s| |s m e]; try destruct s; cbv; congruence. Qed.

Lemma ltb_zero_not_zero r : ltb zero r = true -> is_zero r = false.
Proof. destruct r as [s|s| |s m e]; try destruct s; cbv; congruence. Qed.

(** C3, as the code has it.  For a range limit [r <= 0], whatever the
    distance, [calculate_jumps] returns the integer [0], the value it also
    returns for no jumps at all.  The mark of a range that is not
    available is made by the caller: the ['jumps'] cell of a row of the
    result table is ['N/A'] then. *)
Theorem calculate_jumps_no_range d r :
  leb r zero = true ->
  calculate_jumps d r = Ok 0 /\ row_jumps d r = Ok NotAvailable.
Proof.
  intros H. unfold row_jumps, calculate_jumps.
  rewrite H, (leb_zero_not_ltb r H). split; reflexivity.
Qed.

Lemma calculate_jumps_no_range_witness :
  leb (of_Z (-1)) zero = true /\
  calculate_jumps (of_Z 7) (of_Z (-1)) = Ok 0.
Proof.
  split; [reflexivity|].
  apply (calculate_jumps_no_range (of_Z 7) (of_Z (-1))). reflexivity.
Defined.

(** C3 as stated fails: with the range limit 0 the result for the distance
    7.0 is the number zero, the very result for the distance 0.0 with the
    range limit 5.0. *)
Lemma calculate_jumps_zero_counterexample :
  calculate_jumps (of_Z 7) zero = Ok 0 /\
  calculate_jumps zero (of_Z 5) = Ok 0.
Proof. split; reflexivity. Qed.

Lemma math_ceil_spec q :
  is_finite q = true ->
  exists n, math_ceil q = Ok n /\
            (n - 1) * denominator q < numerator q <= n * denominator q.
Proof.
  destruct q as [s|s| |s m e]; simpl; try congruence; intros _.
  - exists 0. split; [reflexivity|lia].
  - generalize (if s then Z.neg m else Z.pos m). intros num.
    destruct e as [|k|k].
    + exists (num * 2 ^ 0). split; [reflexivity|].
      change (2 ^ Z.max (- 0) 0) with 1. change (2 ^ Z.max 0 0) with 1.
      change (2 ^ 0) with 1. lia.
    + exists (num * 2 ^ Z.pos k). split; [reflexivity|].
      change (Z.max (- Z.pos k) 0) with 0. change (Z.max (Z.pos k) 0) with (Z.pos k).
      change (2 ^ 0) with 1. generalize (num * 2 ^ Z.pos k). intros; lia.
    + exists (- (- num / 2 ^ Z.pos k)). split; [reflexivity|].
      change (Z.max (- Z.neg k) 0) with (Z.pos k).
      change (Z.max (Z.neg k) 0) with 0. change (2 ^ 0) with 1.
      assert (Hb : 0 < 2 ^ Z.pos k) by (apply Z.pow_pos_nonneg; lia).
      pose proof (Z.mul_div_le (- num) _ Hb).
      pose proof (Z.mul_succ_div_gt (- num) _ Hb).
      generalize dependent (2 ^ Z.pos k). intros b Hb H1 H2.
      generalize dependent (- num / b). intros; nia.
Qed.

Lemma div_zero_pos d r :
  is_zero d = true -> ltb zero r = true -> is_zero (div d r) = true.
Proof.
  destruct d as [sd|sd| |sd md ed]; simpl; try congruence; intros _.
  destruct r as [s|s| |s m e]; try destruct s; cbv; congruence.
Qed.

(** C4, as the code has it.  For a range limit [r > 0]: a zero distance
    gives [0]; and whenever the float quotient [d / r] is a finite number,
    [calculate_jumps] returns the least integer [n] not below it, that is
    [n - 1 < d / r <= n] for the exact value of the quotient. *)
Theorem calculate_jumps_ceiling d r :
  ltb zero r = true ->
  (is_zero d = true -> calculate_jumps d r = Ok 0) /\
  (is_finite (div d r) = true ->
   exists n, calculate_jumps d r = Ok n /\
             (n - 1) * denominator (div d r) < numerator (div d r)
             <= n * denominator (div d r)).
Proof.
  intros Hr. unfold calculate_jumps, truediv.
  rewrite (ltb_zero_not_leb r Hr), (ltb_zero_not_zero r Hr). cbn [rbind].
  split.
  - intros Hd. pose proof (div_zero_pos d r Hd Hr) as Hz.
    destruct (div d r); try discriminate. reflexivity.
  - apply math_ceil_spec.
Qed.

Lemma calculate_jumps_ceiling_witness :
  ltb zero (of_Z 5) = true /\
  is_finite (div (of_Z 7) (of_Z 5)) = true /\
  exists n, calculate_jumps (of_Z 7) (of_Z 5) = Ok n /\
            (n - 1) * denominator (div (of_Z 7) (of_Z 5))
            < numerator (div (of_Z 7) (of_Z 5))
            <= n * denominator (div (of_Z 7) (of_Z 5)).
Proof.
  split; [reflexivity|]. split; [reflexivity|].
  destruct (calculate_jumps_ceiling (of_Z 7) (of_Z 5) eq_refl) as [_ H].
  exact (H eq_refl).
Defined.

(** The distance 7.0 with the range limit 5.0 takes 2 jumps. *)
Example calculate_jumps_7_5 : calculate_jumps (of_Z 7) (of_Z 5) = Ok 2.
Proof. reflexivity. Qed.

(** The quotient is rounded before the ceiling is taken: with the range
    limit [r] the float nearest to 1/3, three jumps fall short of the
    distance 1.0, and 3 is the result. *)
Example calculate_jumps_rounded_quotient :
  calculate_jumps (of_Z 1) (div (of_Z 1) (of_Z 3)) = Ok 3 /\
  3 * numerator (div (of_Z 1) (of_Z 3)) < 1 * denominator (div (of_Z 1) (of_Z 3)).
Proof. split; [vm_compute; reflexivity|vm_compute; reflexivity]. Qed.

(** C4 as stated fails where the quotient overflows: the distance 1.0 is
    finite and not negative, the range limit 2^-1074 is positive, the
    quotient is [inf], and [math.ceil] raises [OverflowError]. *)
Lemma calculate_jumps_overflow_counterexample :
  is_finite (of_Z 1) = true /\ leb zero (of_Z 1) = true /\
  ltb zero tiny = true /\
  calculate_jumps (of_Z 1) tiny = Raise OverflowError.
Proof. repeat split. Qed.

(** ** [import_route_from_csv] *)

Section ImportFacts.

Variable float_of_string : string -> option float.

Lemma row_fails_raises cols row :
  row_fails float_of_string cols row ->
  exists e, row_system float_of_string cols row = Raise e.
Proof.
  unfold row_system.
  intros [(v & e & Hg & Hf)|[(v & e & Hg & Hf)|(v & e & Hg & Hf)]];
    repeat (match goal with
            | |- context [rbind ?r _] =>
                destruct r eqn:?; cbn [rbind]; eauto
            end);
    exfalso; congruence.
Qed.

Lemma import_rows_raises cols rs acc :
  Exists (row_fails float_of_string cols) rs ->
  exists e, import_rows float_of_string cols rs acc = Raise e.
Proof.
  intros H. revert acc; induction H as [row rs H|row rs H IH]; intros acc;
    cbn [import_rows].
  - destruct (row_fails_raises cols row H) as [e ->]. cbn. eauto.
  - destruct (row_system float_of_string cols row); cbn [rbind]; eauto.
Qed.

Lemma import_rows_app cols rs acc imported :
  import_rows float_of_string cols rs acc = Ok imported ->
  exists new, imported = acc ++ new /\ length new = length rs /\
              Forall2 (fun row s => row_system float_of_string cols row = Ok s)
                      rs new.
Proof.
  revert acc; induction rs as [|row rs IH]; intros acc; cbn [import_rows].
  - intros [= <-]. exists []. rewrite app_nil_r. auto.
  - destruct (row_system float_of_string cols row) as [s|] eqn:Hs;
      cbn [rbind]; [|discriminate].
    intros H. destruct (IH _ H) as (new & -> & Hlen & Hall).
    exists (s :: new). rewrite <- app_assoc. simpl. auto.
Qed.

(** The rows written by the export, taken as the cells of a frame with the
    four columns, import as the systems they were written from. *)
Lemma import_export_rows route acc :
  import_rows float_of_string required_columns (map export_row route) acc =
  Ok (acc ++ route).
Proof.
  revert acc; induction route as [|[n [x y z]] route IH]; intros acc.
  - simpl. by rewrite app_nil_r.
  - cbn [map import_rows]. unfold row_system, export_row. cbn.
    rewrite IH, <- app_assoc. reflexivity.
Qed.

(** C5.  The import fails, with the flag [False] and an error message, and
    leaves the heap, and with it the live route, as it was: when the
    parser raises; when one of the four required columns is missing, with
    the message that lists them; and when in some row the X, Y or Z field
    does not parse as a float.  In general, whenever the flag is [False]
    the heap is as before: nothing is imported in part. *)
Theorem import_failure_atomic self (csv : result DataFrame)
    (h : gmap loc obj) :
  (forall e, csv = Raise e ->
     import_route_from_csv float_of_string self csv h =
     (Ok (false, ErrorImporting e), h)) /\
  (forall frame, csv = Ok frame ->
     has_required_columns (columns frame) = false ->
     import_route_from_csv float_of_string self csv h =
     (Ok (false, InvalidFormat), h)) /\
  (forall frame, csv = Ok frame ->
     has_required_columns (columns frame) = true ->
     Exists (row_fails float_of_string (columns frame)) (rows frame) ->
     exists e,
       import_route_from_csv float_of_string self csv h =
       (Ok (false, ErrorImporting e), h)) /\
  (forall m,
     (import_route_from_csv float_of_string self csv h).1 = Ok (false, m) ->
     (import_route_from_csv float_of_string self csv h).2 = h).
Proof.
  unfold import_route_from_csv, catch, bind, lift, ret.
  split; [intros e ->; reflexivity|].
  split; [intros frame -> ->; reflexivity|].
  split.
  - intros frame -> -> Hex. cbn [negb].
    destruct (import_rows_raises _ _ [] Hex) as [e ->]. eauto.
  - intros m. destruct csv as [frame|e]; [|reflexivity].
    destruct (has_required_columns (columns frame)); [|reflexivity].
    cbn [negb].
    destruct (import_rows _ _ _ _) as [imported|e]; [|reflexivity].
    unfold extend. destruct (h !! systems self) as [[items| |]|];
      cbn; try reflexivity. discriminate.
Qed.

(** C6, as the code has it.  A successful import appends the imported
    systems, one for each row and in the order of the rows, to the live
    route, whose earlier systems stay in front, and returns the flag
    [True] with the count of the imported systems. *)
Theorem import_success_extends self frame (h : gmap loc obj) items imported :
  h !! systems self = Some (ListSystems items) ->
  has_required_columns (columns frame) = true ->
  import_rows float_of_string (columns frame) (rows frame) [] = Ok imported ->
  import_route_from_csv float_of_string self (Ok frame) h =
    (Ok (true, Imported (length imported)),
     <[systems self := ListSystems (items ++ imported)]> h) /\
  length imported = length (rows frame) /\
  Forall2 (fun row s => row_system float_of_string (columns frame) row = Ok s)
          (rows frame) imported.
Proof.
  intros Hh Hc Hi.
  unfold import_route_from_csv, catch, bind, lift, ret, extend.
  rewrite Hc. cbn [negb]. rewrite Hi, Hh. cbn.
  split; [reflexivity|].
  destruct (import_rows_app _ _ _ _ Hi) as (new & -> & Hlen & Hall). auto.
Qed.

End ImportFacts.

Lemma import_failure_atomic_witness :
  has_required_columns (columns frame_no_Z) = false /\
  import_route_from_csv parse_digits calc (Ok frame_no_Z) (heap_of [sys_A]) =
  (Ok (false, InvalidFormat), heap_of [sys_A]).
Proof.
  split; [reflexivity|].
  destruct (import_failure_atomic parse_digits calc (Ok frame_no_Z)
              (heap_of [sys_A])) as (_ & H & _).
  exact (H frame_no_Z eq_refl eq_refl).
Defined.

(** A row whose Y field is the text north makes the import fail, and the
    live route stays as it was. *)
Example import_bad_field :
  row_fails parse_digits (columns frame_bad_Y) [VStr "B"; VStr "3"; VStr "north"; VStr "0"] /\
  import_route_from_csv parse_digits calc (Ok frame_bad_Y) (heap_of [sys_A]) =
  (Ok (false, ErrorImporting ValueError), heap_of [sys_A]).
Proof.
  split; [|vm_compute; reflexivity].
  right; left. exists (VStr "north"), ValueError. split; reflexivity.
Qed.

Lemma import_success_extends_witness :
  heap_of [sys_A] !! systems calc = Some (ListSystems [sys_A]) /\
  has_required_columns (columns frame_B) = true /\
  import_rows parse_digits (columns frame_B) (rows frame_B) [] = Ok [sys_B] /\
  import_route_from_csv parse_digits calc (Ok frame_B) (heap_of [sys_A]) =
    (Ok (true, Imported 1),
     <[systems calc := ListSystems [sys_A; sys_B]]> (heap_of [sys_A])).
Proof.
  split; [reflexivity|]. split; [reflexivity|]. split; [reflexivity|].
  destruct (import_success_extends parse_digits calc frame_B (heap_of [sys_A])
              [sys_A] [sys_B] eq_refl eq_refl eq_refl) as [H _].
  exact H.
Defined.

(** The import takes a coordinate of 1e200 and a NaN coordinate as they
    come. *)
Example import_far_gap :
  import_rows parse_digits (columns frame_far_gap) (rows frame_far_gap) [] =
  Ok [sys_far; sys_gap].
Proof. vm_compute. reflexivity. Qed.

(** C6 as stated fails: a live route holding A, after the successful
    import of a file with one row for B, holds A and B. *)
Lemma import_merges_counterexample :
  heap_of [sys_A] !! systems calc = Some (ListSystems [sys_A]) /\
  (import_route_from_csv parse_digits calc (Ok frame_B) (heap_of [sys_A])).1 =
    Ok (true, Imported 1) /\
  (import_route_from_csv parse_digits calc (Ok frame_B) (heap_of [sys_A])).2
    !! systems calc = Some (ListSystems [sys_A; sys_B]).
Proof. repeat split; vm_compute; reflexivity. Qed.

(** C5 as stated fails for a field that does not parse because it is
    empty: pandas delivers an empty field as NaN, [float] takes a NaN as
    it is, and the row is imported, with a NaN coordinate. *)
Lemma import_empty_field_counterexample :
  has_required_columns (columns frame_gap) = true /\
  (import_route_from_csv parse_digits calc (Ok frame_gap) (heap_of [sys_A])).1 =
    Ok (true, Imported 1) /\
  (import_route_from_csv parse_digits calc (Ok frame_gap) (heap_of [sys_A])).2
    !! systems calc = Some (ListSystems [sys_A; sys_gap]).
Proof. repeat split; vm_compute; reflexivity. Qed.

(** ** The export, and the export read back *)


Lemma write_rows_all fs i rs :
  (forall j row, writerow fs j row = Ok tt) ->
  write_rows fs i rs = (Ok tt, rs).
Proof.
  intros Hw. revert i; induction rs as [|r rs IH]; intros i; [reflexivity|].
  cbn [write_rows]. rewrite Hw, IH. reflexivity.
Qed.



(** On the file system whose third write raises, the export of A and B
    returns [False], with the header and the row of A written. *)
Example export_route_to_csv_failing :
  (export_route_to_csv calc failing_files (heap_of [sys_A; sys_B])).1 =
  Ok (false, [map VStr required_columns; export_row sys_A]).
Proof. vm_compute. reflexivity. Qed.

Section RoundTrip.

Variable float_of_string : string -> option float.
Variable close : float -> float -> Prop.

(** The rows read back import as points that are the same as the systems
    they were written from, up to [close]. *)
Lemma import_rows_read_back route rs acc :
  Forall2 (read_back float_of_string close) route rs ->
  exists imported,
    import_rows float_of_string required_columns rs acc = Ok (acc ++ imported)
    /\ Forall2 (same_point close) route imported.
Proof.
  intros H. revert acc. induction H as [|s row route rs Hrow _ IH]; intros acc.
  - exists []. split; [cbn; by rewrite app_nil_r|constructor].
  - destruct Hrow as (cx & cy & cz & x & y & z & -> & Hx & Rx & Hy & Ry
                      & Hz & Rz).
    destruct (IH (acc ++ [mkSystem (name s) (Coord.mk x y z)]))
      as (imported & Himp & Hsame).
    exists (mkSystem (name s) (Coord.mk x y z) :: imported). split.
    + cbn [import_rows]. unfold row_system. cbn [row_get required_columns].
      cbn. rewrite Hx, Hy, Hz. cbn [rbind]. rewrite Himp, <- app_assoc.
      reflexivity.
    + constructor; [|exact Hsame]. repeat split; assumption.
Qed.

(** C7, as the code has it.  Let the live route be a list that is not
    empty, let [open], every write and the closing of the file return,
    and let the frame that pandas reads from the file have the four
    labels and, for each system in order, a row whose name cell is the
    name written and whose X, Y and Z cells are turned by [float] into
    numbers close to the coordinates written, whatever the text in
    between has done to them.  Then the export returns [True], having
    written the header of the four labels followed by one row for each
    system, in the order of the route, with its name and its three
    coordinates; and the import of that frame succeeds, counts as many
    systems as the route has, and appends to the live route as many
    points, in the same order, each with the name of its system and with
    coordinates close to those of its system. *)
Theorem csv_round_trip self self2 fs (h : gmap loc obj) route items frame :
  h !! systems self = Some (ListSystems route) ->
  route <> [] ->
  open_file fs = Ok tt ->
  (forall i row, writerow fs i row = Ok tt) ->
  close_file fs = Ok tt ->
  columns frame = required_columns ->
  Forall2 (read_back float_of_string close) route (rows frame) ->
  h !! systems self2 = Some (ListSystems items) ->
  exists imported,
    export_route_to_csv self fs h =
      (Ok (true, map VStr required_columns :: map export_row route), h) /\
    import_route_from_csv float_of_string self2 (Ok frame) h =
      (Ok (true, Imported (length route)),
       <[systems self2 := ListSystems (items ++ imported)]> h) /\
    Forall2 (same_point close) route imported.
Proof.
  intros Hh Hne Hopen Hwrite Hclose Hcols Hrows Hh2.
  destruct (import_rows_read_back route (rows frame) [] Hrows)
    as (imported & Himp & Hsame).
  exists imported. split; [|split; [|exact Hsame]].
  - unfold export_route_to_csv, bind, get_systems, ret. rewrite Hh, Hopen.
    destruct route as [|s route]; [congruence|].
    rewrite (write_rows_all fs 0 _ Hwrite), Hclose. reflexivity.
  - unfold import_route_from_csv, catch, bind, lift, ret, extend.
    rewrite Hcols. change (has_required_columns required_columns) with true.
    cbn [negb]. rewrite Himp, Hh2. cbn [app].
    rewrite <- (Forall2_length _ _ _ Hsame). reflexivity.
Qed.

End RoundTrip.

Lemma csv_round_trip_witness :
  heap_of [sys_A; sys_B] !! systems calc = Some (ListSystems [sys_A; sys_B]) /\
  columns frame_A_B = required_columns /\
  exists imported,
    export_route_to_csv calc working_files (heap_of [sys_A; sys_B]) =
      (Ok (true, map VStr required_columns :: map export_row [sys_A; sys_B]),
       heap_of [sys_A; sys_B]) /\
    import_route_from_csv parse_digits calc (Ok frame_A_B)
                          (heap_of [sys_A; sys_B]) =
      (Ok (true, Imported (length [sys_A; sys_B])),
       <[systems calc := ListSystems ([sys_A; sys_B] ++ imported)]>
         (heap_of [sys_A; sys_B])) /\
    Forall2 (same_point eq) [sys_A; sys_B] imported.
Proof.
  split; [reflexivity|]. split; [reflexivity|].
  apply (csv_round_trip parse_digits eq calc calc working_files
           (heap_of [sys_A; sys_B]) [sys_A; sys_B] [sys_A; sys_B] frame_A_B);
    try reflexivity; [discriminate|].
  repeat constructor; eexists _, _, _, _, _, _;
    (split; [reflexivity|]); repeat split; reflexivity.
Defined.

(** C7 as stated fails on a name that pandas does not read as it was
    written.  The system named NA at the origin is written as the row NA,
    0.0, 0.0, 0.0; pandas takes NA for a missing value and hands the name
    cell as NaN; the point imported has NaN for its name. *)
Lemma csv_round_trip_counterexample :
  export_route_to_csv calc working_files (heap_of [sys_NA]) =
    (Ok (true, [map VStr required_columns;
                [VStr "NA"; VFloat zero; VFloat zero; VFloat zero]]),
     heap_of [sys_NA]) /\
  import_rows parse_digits (columns frame_NA) (rows frame_NA) [] =
    Ok [mkSystem (VFloat nan) (Coord.mk zero zero zero)] /\
  name (mkSystem (VFloat nan) (Coord.mk zero zero zero)) <> name sys_NA.
Proof.
  split; [vm_compute; reflexivity|]. split; [vm_compute; reflexivity|].
  discriminate.
Qed.

(** ** Which totals agree *)

Lemma opt_legs_shift a route idx :
  opt_legs (a :: route) (map S idx) = opt_legs route idx.
Proof.
  induction idx as [|i idx IH]; [reflexivity|].
  cbn [map opt_legs]. rewrite !item_cons, IH. reflexivity.
Qed.

Lemma opt_legs_spec route :
  opt_legs route (seq 0 (length route - 1)) = legs_of route.
Proof.
  induction route as [|a [|b rest] IH]; try reflexivity.
  replace (length (a :: b :: rest) - 1)%nat with (S (length (b :: rest) - 1))
    by (simpl; lia).
  rewrite <- cons_seq, <- seq_shift, legs_of_cons.
  cbn [opt_legs item lookup list_lookup rbind].
  rewrite opt_legs_shift, IH. reflexivity.
Qed.

(** The items of the generator are the distances of the legs. *)
Lemma leg_distances_opt_legs route idx :
  leg_distances route idx =
  let? legs := opt_legs route idx in Ok (map snd legs).
Proof.
  induction idx as [|i idx IH]; [reflexivity|].
  cbn [leg_distances opt_legs].
  destruct (item route i) as [a|]; cbn [rbind]; [|reflexivity].
  destruct (item route (S i)) as [b|]; cbn [rbind]; [|reflexivity].
  destruct (calculate_distance _ _) as [d|]; cbn [rbind]; [|reflexivity].
  rewrite IH. destruct (opt_legs route idx); reflexivity.
Qed.

Lemma tour_distance_legs {py : Interpreter} route :
  tour_distance route =
  let? legs := legs_of route in Ok (builtin_sum (map snd legs)).
Proof.
  unfold tour_distance. rewrite leg_distances_opt_legs, opt_legs_spec.
  destruct (legs_of route); reflexivity.
Qed.

Lemma route_distances_legs route :
  route_distances route =
  let? legs := legs_of route in
  Ok (legs, sequential_sum (map snd legs)).
Proof.
  unfold route_distances. rewrite legs_loop_spec.
  destruct (legs_of route); reflexivity.
Qed.

(** X1.  Which totals agree.  The legs that [calculate_route] computes
    for a route by its comprehension are the legs that
    [calculate_route_distances] computes for it, with the same outcome
    when a distance raises.  The total that [calculate_route] takes of
    them with [sum] is the total by which [optimize_route] ranks that
    route, on every interpreter.  On an interpreter whose [sum] adds from
    left to right, as CPython up to 3.11, it is also the total of
    [calculate_route_distances], which adds with [+=]; from CPython 3.12
    on the two can differ in the last place. *)
Theorem totals_agree {py : Interpreter} route :
  (let? legs := opt_legs route (seq 0 (length route - 1)) in Ok legs) =
    (let? r := route_distances route in Ok (fst r)) /\
  tour_distance route =
    (let? legs := opt_legs route (seq 0 (length route - 1)) in
     Ok (builtin_sum (map snd legs))) /\
  tour_distance (py := cpython_3_11) route =
    (let? r := route_distances route in Ok (snd r)).
Proof.
  rewrite !tour_distance_legs, opt_legs_spec, route_distances_legs.
  destruct (legs_of route); repeat split; reflexivity.
Qed.

(** With the compensated sum the total of [sum] and the total of [+=]
    differ on the route A, B, C, D of four systems on one line:
    79.05694150420949 against 79.05694150420948. *)
Example sum_rules_differ :
  tour_distance (py := cpython_3_12) [line_A; line_B; line_C; line_D] =
    Ok (S754_finite false 5563137692178265 (-46)) /\
  (let? r := route_distances [line_A; line_B; line_C; line_D] in Ok (snd r)) =
    Ok (S754_finite false 5563137692178264 (-46)).
Proof. split; vm_compute; reflexivity. Qed.

(** ** The optimizer on its own result, and against the entered route *)

Lemma permutations_of_length_head {A : Type} n (l : list A) :
  length l = n ->
  exists more, Itertools.permutations_of_length n l = l :: more.
Proof.
  revert l; induction n as [|n IH]; intros l Hn.
  - destruct l; [|discriminate]. exists []. reflexivity.
  - destruct l as [|a l]; [discriminate|].
    destruct (IH l) as [more Hmore]; [simpl in Hn; lia|].
    cbn [Itertools.permutations_of_length Itertools.picks flat_map fst snd].
    rewrite Hmore. cbn [map app]. eauto.
Qed.

Lemma permutations_head {A : Type} (l : list A) :
  exists more, Itertools.permutations l = l :: more.
Proof. apply permutations_of_length_head. reflexivity. Qed.

Lemma leb_not_nan a b : leb a b = true -> is_nan a = false /\ is_nan b = false.
Proof.
  destruct a as [sa|sa| |sa ma ea], b as [sb|sb| |sb mb eb];
    cbv [leb SFleb SFcompare]; try discriminate; auto.
Qed.

Lemma leb_not_ltb a b : leb a b = true -> ltb b a = false.
Proof.
  intros H. destruct (leb_not_nan a b H) as [Ha Hb].
  destruct (ltb b a) eqn:Hlt; [|reflexivity].
  apply leb_key in H; try assumption. apply ltb_key in Hlt; try assumption.
  revert H Hlt. by_keys.
Qed.

Lemma tours_finite_perm {py : Interpreter} first rest best :
  tours_finite (first :: rest) = true -> Permutation rest best ->
  tours_finite (first :: best) = true.
Proof.
  cbn [tours_finite]. rewrite !forallb_forall. intros H Hp q Hq.
  apply H. apply ItertoolsFacts.permutations_complete.
  rewrite Hp. apply ItertoolsFacts.permutations_sound, Hq.
Qed.

(** A route that has a total by [sum] has its legs, and a total by [+=];
    the total by [sum] is the [sum] of the distances of the legs. *)
Lemma tour_distance_route_distances {py : Interpreter} route t :
  tour_distance route = Ok t ->
  exists legs, route_distances route = Ok (legs, sequential_sum (map snd legs))
               /\ t = builtin_sum (map snd legs).
Proof.
  rewrite tour_distance_legs, route_distances_legs.
  destruct (legs_of route) as [legs|]; cbn [rbind]; [|discriminate].
  intros [= <-]. eauto.
Qed.

(** X2.  Optimizing an optimized route changes nothing.  With two systems
    or more and a finite total for every candidate tour, [optimize_route]
    returns a list [optimized]; and a calculator whose live route is that
    list gets from [optimize_route] a list of the same systems in the same
    order. *)
Theorem optimize_route_idempotent {py : Interpreter} self
    (h : gmap loc obj) route :
  h !! systems self = Some (ListSystems route) ->
  tours_finite route = true ->
  (2 <= length route)%nat ->
  exists l h' optimized,
    optimize_route self h = (Ok (Some l), h') /\
    h' !! l = Some (ListSystems optimized) /\
    forall self2, systems self2 = l ->
      exists l2 h2,
        optimize_route self2 h' = (Ok (Some l2), h2) /\
        h2 !! l2 = Some (ListSystems optimized).
Proof.
  intros Hh Hfin Hlen. destruct route as [|first rest]; [simpl in Hlen; lia|].
  destruct (optimize_route_first_shortest self h first rest Hh Hfin Hlen)
    as (best & l & h' & pre & post & Hrun & Hl & Hperm & _ & _ & Hmin).
  exists l, h', (first :: best). split; [exact Hrun|]. split; [exact Hl|].
  intros self2 Hs2.
  assert (Hh2 : h' !! systems self2 = Some (ListSystems (first :: best)))
    by (rewrite Hs2; exact Hl).
  assert (Hlen2 : (2 <= length (first :: best))%nat).
  { simpl in *. rewrite <- (Permutation_length Hperm). exact Hlen. }
  destruct (optimize_route_first_shortest self2 h' first best Hh2
              (tours_finite_perm _ _ _ Hfin Hperm) Hlen2)
    as (best2 & l2 & h2 & pre2 & post2 & Hrun2 & Hl2 & Hperm2 & Hsplit2 & Hpre2 & _).
  exists l2, h2. split; [exact Hrun2|].
  destruct (permutations_head best) as [more Hhead].
  rewrite Hhead in Hsplit2. destruct pre2 as [|q pre2].
  - inversion Hsplit2; subst best2. exact Hl2.
  - exfalso. inversion Hsplit2; subst q.
    destruct (Hpre2 best (or_introl eq_refl)) as (t2 & t1 & Ht2 & Ht1 & Hlt).
    destruct (Hmin best2 (Permutation_trans Hperm Hperm2))
      as (t1' & t2' & Ht1' & Ht2' & Hle).
    rewrite Ht1 in Ht1'. rewrite Ht2 in Ht2'.
    inversion Ht1'; inversion Ht2'; subst.
    rewrite (leb_not_ltb _ _ Hle) in Hlt. discriminate.
Qed.

(** Run with the [sum] that adds from left to right. *)
Section OptimizedSamples.

#[local] Existing Instance cpython_3_11.

Lemma optimize_route_idempotent_witness :
  heap_of [sys_A; sys_C; sys_B] !! systems calc =
    Some (ListSystems [sys_A; sys_C; sys_B]) /\
  tours_finite [sys_A; sys_C; sys_B] = true /\
  exists l h' optimized,
    optimize_route calc (heap_of [sys_A; sys_C; sys_B]) = (Ok (Some l), h') /\
    h' !! l = Some (ListSystems optimized) /\
    forall self2, systems self2 = l ->
      exists l2 h2,
        optimize_route self2 h' = (Ok (Some l2), h2) /\
        h2 !! l2 = Some (ListSystems optimized).
Proof.
  split; [reflexivity|]. split; [reflexivity|].
  apply (optimize_route_idempotent calc (heap_of [sys_A; sys_C; sys_B])
           [sys_A; sys_C; sys_B]); [reflexivity|reflexivity|simpl; lia].
Defined.

End OptimizedSamples.

(** X3.  On an interpreter whose [sum] adds from left to right, as CPython
    up to 3.11, the optimized route is never longer than the entered one:
    with two systems or more and a finite total for every candidate tour,
    the total of the list that [optimize_route] returns, computed as
    [calculate_route_distances] computes it, is less than or equal to the
    total that [calculate_route_distances] returns for the live route. *)
Theorem optimized_not_longer self (h : gmap loc obj) route :
  h !! systems self = Some (ListSystems route) ->
  tours_finite (py := cpython_3_11) route = true ->
  (2 <= length route)%nat ->
  exists legs total l h' optimized opt_legs opt_total,
    calculate_route_distances self h = (Ok (legs, total), h) /\
    optimize_route (py := cpython_3_11) self h = (Ok (Some l), h') /\
    h' !! l = Some (ListSystems optimized) /\
    route_distances optimized = Ok (opt_legs, opt_total) /\
    leb opt_total total = true.
Proof.
  intros Hh Hfin Hlen. destruct route as [|first rest]; [simpl in Hlen; lia|].
  destruct (optimize_route_first_shortest (py := cpython_3_11) self h first
              rest Hh Hfin Hlen)
    as (best & l & h' & pre & post & Hrun & Hl & Hperm & _ & _ & Hmin).
  destruct (Hmin rest (Permutation_refl rest)) as (tb & te & Htb & Hte & Hle).
  destruct (tour_distance_route_distances _ _ Hte) as (legs & Hlegs & ->).
  destruct (tour_distance_route_distances _ _ Htb) as (olegs & Holegs & ->).
  exists legs, (sequential_sum (map snd legs)), l, h', (first :: best), olegs,
    (sequential_sum (map snd olegs)).
  split.
  { unfold calculate_route_distances, bind, get_systems, lift.
    rewrite Hh, Hlegs. reflexivity. }
  auto.
Qed.

Lemma optimized_not_longer_witness :
  heap_of [sys_A; sys_C; sys_B] !! systems calc =
    Some (ListSystems [sys_A; sys_C; sys_B]) /\
  tours_finite (py := cpython_3_11) [sys_A; sys_C; sys_B] = true /\
  exists legs total l h' optimized opt_legs opt_total,
    calculate_route_distances calc (heap_of [sys_A; sys_C; sys_B]) =
      (Ok (legs, total), heap_of [sys_A; sys_C; sys_B]) /\
    optimize_route (py := cpython_3_11) calc (heap_of [sys_A; sys_C; sys_B]) =
      (Ok (Some l), h') /\
    h' !! l = Some (ListSystems optimized) /\
    route_distances optimized = Ok (opt_legs, opt_total) /\
    leb opt_total total = true.
Proof.
  split; [reflexivity|]. split; [reflexivity|].
  apply (optimized_not_longer calc (heap_of [sys_A; sys_C; sys_B])
           [sys_A; sys_C; sys_B]); [reflexivity|reflexivity|simpl; lia].
Defined.

(** With the compensated sum of CPython 3.12 it can be longer, in the last
    place: the four systems on one line, entered as A, B, C, D, come back
    as A, C, B, D, whose total by [+=] is 79.05694150420949, above the
    79.05694150420948 of the entered route. *)
Example optimized_longer_on_3_12 :
  let r := optimize_route (py := cpython_3_12) calc
             (heap_of [line_A; line_B; line_C; line_D]) in
  r.1 = Ok (Some 5%positive) /\
  r.2 !! 5%positive = Some (ListSystems [line_A; line_C; line_B; line_D]) /\
  (let? e := route_distances [line_A; line_B; line_C; line_D] in
   let? o := route_distances [line_A; line_C; line_B; line_D] in
   Ok (ltb (snd e) (snd o))) = Ok true.
Proof. vm_compute. repeat split; reflexivity. Qed.

(** ** The sign of the estimate *)

Lemma div_nonneg d r :
  is_finite d = true -> nonneg d = true -> ltb zero r = true ->
  nonneg (div d r) = true.
Proof.
  destruct d as [sd|sd| |sd md ed]; simpl; try congruence; intros _ Hd;
    destruct r as [sr|sr| |sr mr er]; try destruct sr; cbv [ltb SFltb SFcompare zero];
    try congruence; intros _; try reflexivity.
  destruct sd; [discriminate|].
  unfold div, SFdiv, SFdiv_core_binary. cbn [xorb].
  set (e' := Z.min _ _).
  set (m' := match ed - er - e' with Z.pos _ => _ | 0 => _ | Z.neg _ => _ end).
  assert (Hm : 0 <= m').
  { subst m'. destruct (ed - er - e'); try lia. apply Z.shiftl_nonneg. lia. }
  pose proof (Z.div_pos m' (Z.pos mr) Hm ltac:(lia)) as Hq.
  unfold Z.div in Hq. destruct (Z.div_eucl m' (Z.pos mr)) as [q rem].
  apply binary_round_aux_nonneg. exact Hq.
Qed.

Lemma math_ceil_nonneg q :
  nonneg q = true ->
  (q = inf /\ math_ceil q = Raise OverflowError) \/
  exists n, math_ceil q = Ok n /\ 0 <= n /\ (n = 0 <-> is_zero q = true).
Proof.
  destruct q as [s|s| |s m e]; simpl; try congruence.
  - intros _. right. exists 0. split; [reflexivity|]. split; [lia|]. split; auto.
  - destruct s; [discriminate|]. intros _. left. split; reflexivity.
  - destruct s; [discriminate|]. intros _. right.
    destruct e as [|k|k].
    + exists (Z.pos m * 2 ^ 0). split; [reflexivity|].
      change (2 ^ 0) with 1. split; [lia|]. split; [lia|discriminate].
    + exists (Z.pos m * 2 ^ Z.pos k). split; [reflexivity|].
      assert (0 < 2 ^ Z.pos k) by (apply Z.pow_pos_nonneg; lia).
      split; [nia|]. split; [nia|discriminate].
    + exists (- (- Z.pos m / 2 ^ Z.pos k)). split; [reflexivity|].
      assert (Hb : 0 < 2 ^ Z.pos k) by (apply Z.pow_pos_nonneg; lia).
      assert (- Z.pos m / 2 ^ Z.pos k < 0)
        by (apply Z.div_lt_upper_bound; lia).
      split; [lia|]. split; [lia|discriminate].
Qed.

(** X4.  For a finite distance that is not negative and a range above
    zero, either the float quotient has overflowed to infinity and
    [calculate_jumps] raises [OverflowError], or [calculate_jumps] returns
    an integer that is not negative, and that is zero exactly when the
    float quotient is zero (as it is for a positive distance so small that
    the quotient underflows). *)
Theorem calculate_jumps_nonneg d r :
  is_finite d = true -> leb zero d = true -> ltb zero r = true ->
  (div d r = inf /\ calculate_jumps d r = Raise OverflowError) \/
  exists n, calculate_jumps d r = Ok n /\ 0 <= n /\
            (n = 0 <-> is_zero (div d r) = true).
Proof.
  intros Hf Hd Hr. rewrite leb_zero_nonneg in Hd.
  unfold calculate_jumps, truediv.
  rewrite (ltb_zero_not_leb r Hr), (ltb_zero_not_zero r Hr). cbn [rbind].
  apply math_ceil_nonneg, div_nonneg; assumption.
Qed.

Lemma calculate_jumps_nonneg_witness :
  is_finite (of_Z 7) = true /\ leb zero (of_Z 7) = true /\
  ltb zero (of_Z 5) = true /\
  ((div (of_Z 7) (of_Z 5) = inf /\
    calculate_jumps (of_Z 7) (of_Z 5) = Raise OverflowError) \/
   exists n, calculate_jumps (of_Z 7) (of_Z 5) = Ok n /\ 0 <= n /\
             (n = 0 <-> is_zero (div (of_Z 7) (of_Z 5)) = true)).
Proof.
  split; [reflexivity|]. split; [reflexivity|]. split; [reflexivity|].
  apply (calculate_jumps_nonneg (of_Z 7) (of_Z 5)); reflexivity.
Defined.

(** ** The import and the order of the columns *)

Lemma row_get_combine cols row col :
  row_get cols row col = assoc_get (combine cols row) col.
Proof.
  revert row; induction cols as [|c cols IH]; intros [|v row]; simpl; auto.
  destruct (String.eqb c col); auto.
Qed.

Lemma assoc_get_perm cells cells' col :
  NoDup (map fst cells) -> Permutation cells cells' ->
  assoc_get cells col = assoc_get cells' col.
Proof.
  intros Hnd Hp. revert Hnd.
  induction Hp as [|[c v] l l' Hp IH|[c1 v1] [c2 v2] l|l l' l'' H1 IH1 H2 IH2];
    intros Hnd.
  - reflexivity.
  - cbn [map fst] in Hnd. apply NoDup_cons in Hnd. destruct Hnd as [_ Hnd].
    cbn [assoc_get]. rewrite (IH Hnd). reflexivity.
  - cbn [map fst] in Hnd. apply NoDup_cons in Hnd. destruct Hnd as [Hnin _].
    cbn [assoc_get].
    destruct (String.eqb_spec c2 col), (String.eqb_spec c1 col); subst; auto.
    exfalso. apply Hnin. left.
  - rewrite IH1 by assumption. apply IH2.
    rewrite <- H1. exact Hnd.
Qed.

Lemma NoDup_combine_keys (cols : list string) (row : list value) :
  NoDup cols -> NoDup (map fst (combine cols row)).
Proof.
  revert row; induction cols as [|c cols IH]; intros [|v row] Hnd;
    cbn [combine map fst]; try constructor.
  - apply NoDup_cons in Hnd. destruct Hnd as [Hnin _].
    intros Hin. apply Hnin. apply list_elem_of_In in Hin.
    apply in_map_iff in Hin. destruct Hin as [[c' v'] [Hc Hin]].
    simpl in Hc. subst c'. apply list_elem_of_In.
    eapply in_combine_l, Hin.
  - apply NoDup_cons in Hnd. destruct Hnd as [_ Hnd]. auto.
Qed.

Section ColumnOrder.

Variable float_of_string : string -> option float.

Lemma row_system_perm cols row cols' row' :
  NoDup cols ->
  Permutation (combine cols row) (combine cols' row') ->
  row_system float_of_string cols row = row_system float_of_string cols' row'.
Proof.
  intros Hnd Hp. unfold row_system.
  rewrite !row_get_combine.
  rewrite !(assoc_get_perm _ _ _ (NoDup_combine_keys cols row Hnd) Hp).
  reflexivity.
Qed.

Lemma import_rows_perm cols cols' rs rs' acc :
  NoDup cols ->
  Forall2 (fun r r' => Permutation (combine cols r) (combine cols' r')) rs rs' ->
  import_rows float_of_string cols rs acc =
  import_rows float_of_string cols' rs' acc.
Proof.
  intros Hnd H. revert acc. induction H as [|r r' rs rs' Hr _ IH]; intros acc.
  - reflexivity.
  - cbn [import_rows]. rewrite (row_system_perm _ _ _ _ Hnd Hr).
    destruct (row_system _ _ _); cbn [rbind]; auto.
Qed.

Lemma has_required_columns_perm cols cols' :
  Permutation cols cols' ->
  has_required_columns cols = has_required_columns cols'.
Proof.
  intros Hp. unfold has_required_columns.
  induction required_columns as [|col cs IH]; [reflexivity|].
  cbn [forallb]. rewrite IH. f_equal.
  apply bool_decide_ext. rewrite Hp. reflexivity.
Qed.

(** X5.  The import goes by the labels of the columns, not by their
    places.  Two frames with the same labels, none of them twice, in two
    orders, whose rows hold the same cells under the same labels, are
    imported with the same result and the same effect on the heap. *)
Theorem import_column_order self f1 f2 (h : gmap loc obj) :
  NoDup (columns f1) ->
  Permutation (columns f1) (columns f2) ->
  Forall2 (fun r1 r2 => Permutation (combine (columns f1) r1)
                                    (combine (columns f2) r2))
          (rows f1) (rows f2) ->
  import_route_from_csv float_of_string self (Ok f1) h =
  import_route_from_csv float_of_string self (Ok f2) h.
Proof.
  intros Hnd Hc Hr. unfold import_route_from_csv, catch, bind, lift, ret.
  rewrite (has_required_columns_perm _ _ Hc).
  rewrite (import_rows_perm _ _ _ _ [] Hnd Hr). reflexivity.
Qed.

End ColumnOrder.

Lemma import_column_order_witness :
  NoDup (columns frame_B) /\
  Permutation (columns frame_B) (columns frame_B_shuffled) /\
  import_route_from_csv parse_digits calc (Ok frame_B) (heap_of [sys_A]) =
  import_route_from_csv parse_digits calc (Ok frame_B_shuffled)
                        (heap_of [sys_A]).
Proof.
  assert (Hnd : NoDup (columns frame_B))
    by (apply (bool_decide_unpack _); vm_compute; exact I).
  assert (Hp : Permutation (columns frame_B) (columns frame_B_shuffled))
    by (cbn; apply perm_trans with ["X"; "System Name"; "Y"; "Z"]%string;
        [apply perm_swap | do 2 apply perm_skip; apply perm_swap]).
  split; [exact Hnd|]. split; [exact Hp|].
  apply (import_column_order parse_digits calc frame_B frame_B_shuffled
           (heap_of [sys_A]) Hnd Hp).
  constructor; [|constructor]. cbn.
  apply perm_trans with [("X", VFloat (of_Z 3)); ("System Name", VStr "B");
                         ("Y", VFloat zero); ("Z", VFloat zero)]%string;
    [apply perm_swap | do 2 apply perm_skip; apply perm_swap].
Defined.

(** ** [update_results] *)

Lemma change_panel_twice b f g w :
  change_panel b f (change_panel b g w) = change_panel b (fun t => f (g t)) w.
Proof. destruct w as [h c p], b; reflexivity. Qed.

Lemma change_panel_ext b f g w :
  (forall t, f t = g t) -> change_panel b f w = change_panel b g w.
Proof.
  intros H. destruct w as [h c p], b; unfold change_panel, with_panel; simpl;
    rewrite H; reflexivity.
Qed.

Lemma append_rows_nil w b : change_panel b (append_rows []) w = w.
Proof.
  destruct w as [h c [a1 a2 a3 [r1 t1 j1] [r2 t2 j2] a6 a7]], b;
    unfold change_panel, with_panel, append_rows; simpl;
    rewrite app_nil_r; reflexivity.
Qed.

Section ResultsFacts.

Variable format2 : float -> string.

Lemma results_loop_cons b r from_sys to_sys d legs acc w :
  results_loop format2 b r ((from_sys, to_sys, d) :: legs) acc w =
  match leg_jumps r (from_sys, to_sys, d) with
  | Ok n =>
      results_loop format2 b r legs (acc + n)
        (change_panel b (append_row (result_row format2 r (from_sys, to_sys, d) n)) w)
  | Raise e => (Raise e, w)
  end.
Proof.
  cbn [results_loop]. unfold ubind, of_result, leg_jumps. cbn [snd].
  destruct (if ltb zero r then calculate_jumps d r else Ok 0); reflexivity.
Qed.

(** When every estimate is there, the loop appends one row for each leg
    and adds the estimates up. *)
Lemma results_loop_ok b r legs ns acc w :
  legs_jumps r legs = Ok ns ->
  results_loop format2 b r legs acc w =
  (Ok (acc + foldr Z.add 0 ns),
   change_panel b (append_rows (zip_with (result_row format2 r) legs ns)) w).
Proof.
  revert ns acc w; induction legs as [|[[f t] d] legs IH]; intros ns acc w.
  - intros [= <-]. cbn [results_loop zip_with foldr]. unfold uret.
    rewrite append_rows_nil, Z.add_0_r. reflexivity.
  - cbn [legs_jumps]. rewrite results_loop_cons.
    destruct (leg_jumps r (f, t, d)) as [n|]; cbn [rbind]; [|discriminate].
    destruct (legs_jumps r legs) as [ns'|]; cbn [rbind]; [|discriminate].
    intros [= <-]. rewrite (IH ns' _ _ eq_refl), change_panel_twice.
    cbn [foldr zip_with]. f_equal; [f_equal; lia|].
    apply change_panel_ext. intros [rs tt jt].
    unfold append_rows, append_row. cbn. rewrite <- app_assoc. reflexivity.
Qed.

(** When the estimate of a leg raises, the rows of the legs before it have
    been appended. *)
Lemma results_loop_raise b r done bad rest ns e acc w :
  legs_jumps r done = Ok ns ->
  leg_jumps r bad = Raise e ->
  results_loop format2 b r (done ++ bad :: rest) acc w =
  (Raise e,
   change_panel b (append_rows (zip_with (result_row format2 r) done ns)) w).
Proof.
  revert ns acc w; induction done as [|[[f t] d] done IH]; intros ns acc w.
  - intros [= <-] Hbad. destruct bad as [[f t] d].
    cbn [app]. rewrite results_loop_cons, Hbad.
    cbn. rewrite append_rows_nil. reflexivity.
  - cbn [legs_jumps app]. rewrite results_loop_cons.
    destruct (leg_jumps r (f, t, d)) as [n|]; cbn [rbind]; [|discriminate].
    destruct (legs_jumps r done) as [ns'|]; cbn [rbind]; [|discriminate].
    intros [= <-] Hbad. rewrite (IH ns' _ _ eq_refl Hbad), change_panel_twice.
    f_equal. apply change_panel_ext. intros [rs tt jt].
    unfold append_rows, append_row. cbn. rewrite <- app_assoc. reflexivity.
Qed.

Lemma update_results_run legs total b r ns w :
  legs_jumps r legs = Ok ns ->
  update_results format2 legs total b r w =
  (Ok tt,
   change_panel b
     (fun _ => Panel.mk (zip_with (result_row format2 r) legs ns)
                        (total_text_of format2 b total)
                        (if ltb zero r
                         then "Estimated Jumps: " +:+ pretty (foldr Z.add 0 ns)
                         else "Estimated Jumps: N/A"))
     w).
Proof.
  intros H. unfold update_results, ubind, update_page.
  fold (change_panel b (set_rows []) w).
  rewrite (results_loop_ok b r legs ns 0 _ H).
  rewrite change_panel_twice. cbn [calculator heap ui].
  destruct w as [h c p], b; reflexivity.
Qed.

Lemma legs_jumps_no_range r legs :
  ltb zero r = false -> legs_jumps r legs = Ok (map (fun _ => 0) legs).
Proof.
  intros H. induction legs as [|l legs IH]; [reflexivity|].
  cbn [legs_jumps map]. unfold leg_jumps. rewrite H, IH. reflexivity.
Qed.

(** X7.  Without a jump range above zero [update_results] never raises,
    whatever the distances of the legs, NaN and infinity included: the
    table it was given is replaced by one row for each leg, in order, with
    the names, the formatted distance and ['N/A'] in the jumps cell; the
    label of the total shows the total passed; the jumps label reads
    ['Estimated Jumps: N/A']; and the other table, the heap and the
    calculator are as before. *)
Theorem update_results_no_range legs total b r w :
  ltb zero r = false ->
  update_results format2 legs total b r w =
  (Ok tt,
   change_panel b
     (fun _ => Panel.mk
                 (map (fun l => Row.mk (fst (fst l)) (snd (fst l))
                                       (format2 (snd l)) NotAvailable) legs)
                 (total_text_of format2 b total)
                 "Estimated Jumps: N/A")
     w).
Proof.
  intros H. rewrite (update_results_run legs total b r _ w
                       (legs_jumps_no_range r legs H)).
  rewrite H. f_equal. apply change_panel_ext. intros _. f_equal.
  induction legs as [|l legs IH]; [reflexivity|].
  cbn [map zip_with]. rewrite IH. unfold result_row. rewrite H. reflexivity.
Qed.

Lemma legs_jumps_Forall2 r legs ns :
  ltb zero r = true ->
  Forall2 (fun l n => calculate_jumps (snd l) r = Ok n) legs ns ->
  legs_jumps r legs = Ok ns.
Proof.
  intros Hr H. induction H as [|l n legs ns Hn _ IH]; [reflexivity|].
  cbn [legs_jumps]. unfold leg_jumps. rewrite Hr, Hn, IH. reflexivity.
Qed.

Lemma result_rows_range r legs ns :
  ltb zero r = true ->
  zip_with (result_row format2 r) legs ns =
  zip_with (fun l n => Row.mk (fst (fst l)) (snd (fst l))
                              (format2 (snd l)) (JumpCount n)) legs ns.
Proof.
  intros Hr. revert ns; induction legs as [|l legs IH]; intros [|n ns];
    try reflexivity.
  cbn [zip_with]. rewrite IH. unfold result_row. rewrite Hr. reflexivity.
Qed.

(** X8.  With a jump range above zero and an estimate [n] for every leg,
    [update_results] replaces the table by one row for each leg, in order,
    with the estimate of the leg in its jumps cell, and the jumps label
    shows the sum of the estimates of the legs. *)
Theorem update_results_sums legs total b r ns w :
  ltb zero r = true ->
  Forall2 (fun l n => calculate_jumps (snd l) r = Ok n) legs ns ->
  update_results format2 legs total b r w =
  (Ok tt,
   change_panel b
     (fun _ => Panel.mk
                 (zip_with (fun l n => Row.mk (fst (fst l)) (snd (fst l))
                                              (format2 (snd l)) (JumpCount n))
                           legs ns)
                 (total_text_of format2 b total)
                 ("Estimated Jumps: " +:+ pretty (foldr Z.add 0 ns)))
     w).
Proof.
  intros Hr H.
  rewrite (update_results_run legs total b r ns w (legs_jumps_Forall2 _ _ _ Hr H)).
  rewrite Hr, (result_rows_range _ _ _ Hr). reflexivity.
Qed.

(** X9.  When the estimate of a leg raises, [update_results] raises the
    same exception and leaves the table half filled: the table holds the
    rows of the legs before that leg and no other, and the two labels
    still show their earlier texts. *)
Theorem update_results_partial done bad rest total b r ns e w :
  ltb zero r = true ->
  Forall2 (fun l n => calculate_jumps (snd l) r = Ok n) done ns ->
  calculate_jumps (snd bad) r = Raise e ->
  update_results format2 (done ++ bad :: rest) total b r w =
  (Raise e,
   change_panel b
     (fun t => Panel.mk
                 (zip_with (fun l n => Row.mk (fst (fst l)) (snd (fst l))
                                              (format2 (snd l)) (JumpCount n))
                           done ns)
                 (Panel.total_text t) (Panel.jumps_text t))
     w).
Proof.
  intros Hr H Hbad.
  unfold update_results, ubind, update_page.
  fold (change_panel b (set_rows []) w).
  rewrite (results_loop_raise b r done bad rest ns e 0 _
             (legs_jumps_Forall2 _ _ _ Hr H)).
  2:{ unfold leg_jumps. rewrite Hr. exact Hbad. }
  rewrite change_panel_twice, (result_rows_range _ _ _ Hr).
  f_equal.
Qed.

End ResultsFacts.

Lemma update_results_no_range_witness :
  ltb zero zero = false /\
  update_results two_decimals [leg_A_A; leg_A_B] (of_Z 3) false zero
                 (world_of [sys_A; sys_B] None) =
  (Ok tt,
   change_panel false
     (fun _ => Panel.mk
                 (map (fun l => Row.mk (fst (fst l)) (snd (fst l))
                                       (two_decimals (snd l)) NotAvailable)
                      [leg_A_A; leg_A_B])
                 (total_text_of two_decimals false (of_Z 3))
                 "Estimated Jumps: N/A")
     (world_of [sys_A; sys_B] None)).
Proof.
  split; [reflexivity|].
  apply (update_results_no_range two_decimals); reflexivity.
Defined.

Lemma update_results_sums_witness :
  ltb zero (of_Z 2) = true /\
  update_results two_decimals [leg_A_A; leg_A_B] (of_Z 3) true (of_Z 2)
                 (world_of [sys_A; sys_B] (Some (of_Z 2))) =
  (Ok tt,
   change_panel true
     (fun _ => Panel.mk
                 (zip_with (fun l n => Row.mk (fst (fst l)) (snd (fst l))
                                              (two_decimals (snd l))
                                              (JumpCount n))
                           [leg_A_A; leg_A_B] [0; 2])
                 (total_text_of two_decimals true (of_Z 3))
                 ("Estimated Jumps: " +:+ pretty (foldr Z.add 0 [0; 2])))
     (world_of [sys_A; sys_B] (Some (of_Z 2)))).
Proof.
  split; [reflexivity|].
  apply (update_results_sums two_decimals); [reflexivity|].
  repeat constructor.
Defined.

Lemma update_results_partial_witness :
  ltb zero tiny = true /\
  calculate_jumps (snd leg_A_B) tiny = Raise OverflowError /\
  update_results two_decimals ([leg_A_A] ++ leg_A_B :: []) (of_Z 3) false tiny
                 (world_of [sys_A; sys_B] (Some tiny)) =
  (Raise OverflowError,
   change_panel false
     (fun t => Panel.mk
                 (zip_with (fun l n => Row.mk (fst (fst l)) (snd (fst l))
                                              (two_decimals (snd l))
                                              (JumpCount n))
                           [leg_A_A] [0])
                 (Panel.total_text t) (Panel.jumps_text t))
     (world_of [sys_A; sys_B] (Some tiny))).
Proof.
  split; [reflexivity|]. split; [reflexivity|].
  apply (update_results_partial two_decimals); [reflexivity| |reflexivity].
  repeat constructor.
Defined.

(** ** [update_route_history] and [clear_systems] *)

Lemma strings_of_strings ss : strings_of (map VStr ss) = Ok ss.
Proof.
  induction ss as [|s ss IH]; [reflexivity|].
  cbn [map strings_of]. rewrite IH. reflexivity.
Qed.

Lemma strings_of_other names :
  forallb is_string names = false -> strings_of names = Raise TypeError.
Proof.
  induction names as [|[s|f|n|b] names IH]; cbn [forallb is_string andb];
    try discriminate; try reflexivity.
  intros H. cbn [strings_of]. rewrite (IH H). reflexivity.
Qed.

Lemma strings_of_raises names e :
  strings_of names = Raise e -> e = TypeError.
Proof.
  induction names as [|[s|f|n|b] names IH]; cbn [strings_of];
    try discriminate; try (intros [= <-]; reflexivity).
  destruct (strings_of names); cbn [rbind]; [discriminate|].
  intros [= <-]. apply IH. reflexivity.
Qed.

Section HistoryFacts.

Variable format2 : float -> string.

Lemma format_route_rows_named h log svs :
  entries_view h log = Some (map named svs) ->
  format_route_rows format2 h log = Ok (map (history_row format2) svs).
Proof.
  revert svs; induction log as [|e log IH]; intros svs.
  - destruct svs; [reflexivity|discriminate].
  - cbn [entries_view format_route_rows]. unfold entry_view, format_route_row.
    destruct (h !! Entry.systems e) as [[| names |]|]; try discriminate.
    destruct (entries_view h log) as [vs|]; [|discriminate].
    destruct svs as [|[[t ss] d] svs]; [discriminate|].
    cbn [map]. unfold named at 1. cbn [fst snd]. intros [= -> -> -> ->].
    rewrite strings_of_strings. cbn [rbind]. rewrite (IH svs eq_refl).
    reflexivity.
Qed.

Lemma format_route_rows_other h log vs :
  entries_view h log = Some vs ->
  forallb (fun v => forallb is_string (snd (fst v))) vs = false ->
  format_route_rows format2 h log = Raise TypeError.
Proof.
  revert vs; induction log as [|e log IH]; intros vs.
  - intros [= <-]. discriminate.
  - cbn [entries_view format_route_rows]. unfold entry_view, format_route_row.
    destruct (h !! Entry.systems e) as [[| names |]|]; try discriminate.
    destruct (entries_view h log) as [vs'|]; [|discriminate].
    intros [= <-]. cbn [forallb fst snd].
    destruct (strings_of names) as [ss|e'] eqn:Hs; cbn [rbind].
    + destruct (forallb is_string names) eqn:Hn;
        [|rewrite (strings_of_other _ Hn) in Hs; discriminate].
      cbn [andb]. intros H. rewrite (IH vs' eq_refl H). reflexivity.
    + intros _. rewrite (strings_of_raises _ _ Hs). reflexivity.
Qed.

(** X10.  When every name in the log is a string,
    [update_route_history] replaces the rows of the history table by one
    row for each entry of the log, in the order of the log, with the time
    of the entry, its names joined by the separator and its distance
    formatted; nothing else of the world changes. *)
Theorem update_route_history_rows w svs :
  log_view (heap w) (calculator w) = Some (map named svs) ->
  update_route_history format2 w =
  (Ok tt,
   mkWorld (heap w) (calculator w)
           (set_history_rows (map (history_row format2) svs) (ui w))).
Proof.
  unfold log_view, update_route_history. intros H.
  destruct (heap w !! route_log (calculator w)) as [[| |log]|];
    try discriminate.
  rewrite (format_route_rows_named _ _ _ H). reflexivity.
Qed.

(** X11.  When some entry of the log holds a name that is not a string
    (a number read from a CSV file), [update_route_history] raises
    [TypeError] and leaves the history table, and the rest of the world,
    as it was. *)
Theorem update_route_history_other_name w vs :
  log_view (heap w) (calculator w) = Some vs ->
  forallb (fun v => forallb is_string (snd (fst v))) vs = false ->
  update_route_history format2 w = (Raise TypeError, w).
Proof.
  unfold log_view, update_route_history. intros H Hn.
  destruct (heap w !! route_log (calculator w)) as [[| |log]|];
    try discriminate.
  rewrite (format_route_rows_other _ _ _ H Hn). reflexivity.
Qed.

(** X12.  [clear_systems] always returns.  It binds the live route to a
    new empty list object at a location unused before and changes no
    object of the heap: the list that was the live route, the log and the
    name lists of its entries are as they were.  The systems table and the
    two result tables are emptied, the four labels are set to their zero
    texts, and the history table, the input fields and the jump range of
    the calculator are not touched. *)
Theorem clear_systems_rebinds w :
  exists l,
    heap w !! l = None /\
    clear_systems format2 w =
    (Ok tt,
     mkWorld (<[l := ListSystems []]> (heap w))
             (mkCalculator l (route_log (calculator w))
                           (jump_range (calculator w)))
             (mkPage (jump_range_input (ui w)) (system_input (ui w)) []
                     (Panel.mk [] "Total Distance: 0 Ly" "Estimated Jumps: 0")
                     (Panel.mk [] "Optimized Total Distance: 0 Ly"
                               "Estimated Jumps: 0")
                     (history_rows (ui w)) (notifications (ui w)))) /\
    (forall l0 o, heap w !! l0 = Some o ->
                  <[l := ListSystems []]> (heap w) !! l0 = Some o).
Proof.
  exists (fresh (dom (heap w))). split; [apply fresh_unused|]. split.
  - destruct w as [h c p]. cbn [heap calculator ui].
    unfold clear_systems, update_systems_table, ubind, on_heap, alloc,
      get_calculator, set_calculator, update_page, get_systems, bind.
    cbn [heap calculator ui systems set_systems].
    rewrite lookup_insert_eq. cbn. reflexivity.
  - intros l0 o H. apply alloc_keeps, H.
Qed.

End HistoryFacts.

Lemma update_route_history_rows_witness :
  log_view (heap (world_logged [VStr "A"; VStr "B"]))
           (calculator (world_logged [VStr "A"; VStr "B"])) =
    Some (map named [("2024-05-01 12:00:00", ["A"; "B"], of_Z 3)]%string) /\
  update_route_history two_decimals (world_logged [VStr "A"; VStr "B"]) =
  (Ok tt,
   mkWorld (heap (world_logged [VStr "A"; VStr "B"]))
           (calculator (world_logged [VStr "A"; VStr "B"]))
           (set_history_rows
              (map (history_row two_decimals)
                   [("2024-05-01 12:00:00", ["A"; "B"], of_Z 3)]%string)
              (ui (world_logged [VStr "A"; VStr "B"])))).
Proof.
  split; [reflexivity|].
  apply (update_route_history_rows two_decimals
           (world_logged [VStr "A"; VStr "B"])
           [("2024-05-01 12:00:00", ["A"; "B"], of_Z 3)]%string).
  reflexivity.
Defined.

Lemma update_route_history_other_name_witness :
  log_view (heap (world_logged [VStr "A"; VInt 7]))
           (calculator (world_logged [VStr "A"; VInt 7])) =
    Some [("2024-05-01 12:00:00"%string, [VStr "A"; VInt 7], of_Z 3)] /\
  update_route_history two_decimals (world_logged [VStr "A"; VInt 7]) =
  (Raise TypeError, world_logged [VStr "A"; VInt 7]).
Proof.
  split; [reflexivity|].
  apply (update_route_history_other_name two_decimals
           (world_logged [VStr "A"; VInt 7])
           [("2024-05-01 12:00:00"%string, [VStr "A"; VInt 7], of_Z 3)]);
    reflexivity.
Defined.

(** ** [calculate_route] *)

Lemma ubind_ok {A B : Type} (m : U A) (k : A -> U B) w a w' :
  m w = (Ok a, w') -> ubind m k w = k a w'.
Proof. unfold ubind. intros ->. reflexivity. Qed.

Lemma on_heap_run {A : Type} (m : M A) w r h' :
  m (heap w) = (r, h') ->
  on_heap m w = (r, mkWorld h' (calculator w) (ui w)).
Proof. unfold on_heap. intros ->. reflexivity. Qed.

Lemma log_route_view self now route total (h : gmap loc obj) items vs :
  h !! route = Some (ListSystems items) ->
  log_view h self = Some vs ->
  exists h',
    log_route self now route total h = (Ok tt, h') /\
    log_view h' self = Some (vs ++ [(now, map name items, total)]) /\
    (forall l its, h !! l = Some (ListSystems its) ->
                   h' !! l = Some (ListSystems its)).
Proof.
  intros Hr Hv. unfold log_view in Hv.
  destruct (h !! route_log self) as [[| |es]|] eqn:Hlog; try discriminate.
  set (n := fresh (dom h)).
  set (h1 := <[n := ListNames (map name items)]> h).
  set (e := Entry.mk now n total).
  exists (<[route_log self := ListLog (es ++ [e])]> h1).
  assert (Hn : h !! n = None) by apply fresh_unused.
  assert (Hne : route_log self <> n) by congruence.
  split.
  { unfold log_route, bind, get_systems, alloc, append_log. rewrite Hr.
    fold n. fold h1. cbn zeta.
    replace (h1 !! route_log self) with (Some (ListLog es))
      by (symmetry; unfold h1; rewrite lookup_insert_ne; auto).
    reflexivity. }
  split.
  { unfold log_view. rewrite lookup_insert_eq.
    apply entries_view_app.
    - apply entries_view_mono with h; [|exact Hv].
      intros l ns Hl. rewrite lookup_insert_ne by congruence.
      unfold h1. rewrite lookup_insert_ne by congruence. exact Hl.
    - cbn [entries_view]. unfold entry_view, e. cbn [Entry.systems].
      rewrite lookup_insert_ne by congruence.
      unfold h1. rewrite lookup_insert_eq. reflexivity. }
  intros l its Hl. rewrite lookup_insert_ne by congruence.
  unfold h1. rewrite lookup_insert_ne by congruence. exact Hl.
Qed.

Lemma optimize_route_keeps {py : Interpreter} self (h : gmap loc obj)
    r h' :
  optimize_route self h = (r, h') ->
  forall l o, h !! l = Some o -> h' !! l = Some o.
Proof.
  unfold optimize_route, bind, get_systems, lift, ret.
  destruct (h !! systems self) as [[route| |]|];
    try (intros [= <- <-]; auto).
  destruct (length route <? 2)%nat; [intros [= <- <-]; auto|].
  destruct (item route 0) as [first|]; [|intros [= <- <-]; auto].
  intros Hs. apply search_frame in Hs. apply Hs.
Qed.

Lemma log_view_keeps self (h h' : gmap loc obj) vs :
  (forall l o, h !! l = Some o -> h' !! l = Some o) ->
  log_view h self = Some vs -> log_view h' self = Some vs.
Proof.
  intros Hk Hv. apply log_view_frame with h; [exact Hv| |auto].
  unfold log_view in Hv.
  destruct (h !! route_log self) as [o|] eqn:E; [|discriminate].
  rewrite (Hk _ _ E). reflexivity.
Qed.

(** A candidate tour with a finite total has its legs: they are the legs
    of [calculate_route_distances] and of the comprehension of
    [calculate_route], and the total of the tour is their [sum]. *)
Lemma route_distances_finite {py : Interpreter} first rest p :
  tours_finite (first :: rest) = true -> Permutation rest p ->
  exists legs,
    route_distances (first :: p) =
      Ok (legs, sequential_sum (map snd legs)) /\
    opt_legs (first :: p) (seq 0 (length (first :: p) - 1)) = Ok legs /\
    tour_distance (first :: p) = Ok (builtin_sum (map snd legs)).
Proof.
  cbn [tours_finite]. rewrite forallb_forall. intros H Hp.
  destruct (tour_finite_score first p) as [Ht _].
  { apply H, ItertoolsFacts.permutations_complete, Hp. }
  rewrite opt_legs_spec, route_distances_legs.
  rewrite tour_distance_legs in Ht |- *.
  destruct (legs_of (first :: p)) as [legs|]; cbn [rbind] in *;
    [|discriminate].
  eauto.
Qed.

Lemma estimates_defined_perm r first rest p legs t :
  estimates_defined r (first :: rest) = true -> Permutation rest p ->
  route_distances (first :: p) = Ok (legs, t) ->
  exists ns, legs_jumps r legs = Ok ns.
Proof.
  cbn [estimates_defined]. rewrite forallb_forall. intros H Hp Hl.
  specialize (H p (ItertoolsFacts.permutations_complete _ _ Hp)).
  rewrite Hl in H. destruct (legs_jumps r legs) as [ns|]; [eauto|discriminate].
Qed.

Lemma names_are_strings_map route :
  names_are_strings route = true ->
  map name route = map VStr (map name_string route).
Proof.
  induction route as [|[n c] route IH]; [reflexivity|].
  cbn [names_are_strings forallb name]. intros H.
  apply andb_prop in H. destruct H as [Hn H].
  cbn [map]. rewrite (IH H). unfold name_string. cbn [name].
  destruct n; try discriminate. reflexivity.
Qed.

Lemma names_are_strings_perm route route' :
  Permutation route route' ->
  names_are_strings route = true -> names_are_strings route' = true.
Proof.
  unfold names_are_strings. rewrite !forallb_forall. intros Hp H s Hs.
  apply H. rewrite Hp. exact Hs.
Qed.

Section RouteFacts.

Variable format2 : float -> string.
Context {py : Interpreter}.

Lemma update_results_shown legs total b r ns w :
  legs_jumps r legs = Ok ns ->
  update_results format2 legs total b r w =
  (Ok tt, change_panel b (fun _ => shown format2 b r legs total ns) w).
Proof. apply update_results_run. Qed.

(** X13.  With fewer than two systems in the live route
    [calculate_route] only notifies ['Please add at least two systems']:
    the heap, and with it the log, the jump range of the calculator, the
    tables and the labels are as they were. *)
Theorem calculate_route_too_short now1 now2 w route :
  heap w !! systems (calculator w) = Some (ListSystems route) ->
  (length route < 2)%nat ->
  calculate_route format2 now1 now2 w =
  (Ok tt, mkWorld (heap w) (calculator w) (notify PleaseAddTwoSystems (ui w))).
Proof.
  intros Hh Hlen. unfold calculate_route, ubind, get_calculator, on_heap,
    get_systems. rewrite Hh.
  destruct (Nat.ltb_spec (length route) 2) as [_|]; [|lia].
  destruct w; reflexivity.
Qed.

(** X14.  [calculate_route] from end to end, on every interpreter.  Let
    the live route hold [first] and at least one more system, all with
    strings for names; let every candidate tour have a finite total and
    every leg of every candidate tour have its estimate for the jump range
    [r] read from the field; and let the log read [svs], every name in it
    a string.  Then [calculate_route] returns, and for some ordering
    [best] of the systems after the first: the jump range of the
    calculator is [r]; the entered panel shows the legs of the live route
    and their total by [+=]; the optimized panel shows the legs of [first]
    followed by [best] and their total by [sum], which is less than or
    equal to the total by [sum] of the entered legs; the log reads [svs]
    followed by exactly two entries, the entered route at [now1] and the
    optimized one at [now2], each with the names in its own order and the
    total its panel shows; the history table shows the rows of that log;
    and the live route, the systems table, the input fields and the
    notices are as they were. *)
Theorem calculate_route_shows_both now1 now2 w first rest svs r :
  heap w !! systems (calculator w) = Some (ListSystems (first :: rest)) ->
  (1 <= length rest)%nat ->
  entered_jump_range (jump_range_input (ui w)) = r ->
  tours_finite (first :: rest) = true ->
  estimates_defined r (first :: rest) = true ->
  names_are_strings (first :: rest) = true ->
  log_view (heap w) (calculator w) = Some (map named svs) ->
  exists best legs total ns opt_legs opt_total opt_ns h',
    Permutation rest best /\
    route_distances (first :: rest) = Ok (legs, total) /\
    legs_jumps r legs = Ok ns /\
    (let? legs_total := route_distances (first :: best) in
     Ok (fst legs_total)) = Ok opt_legs /\
    opt_total = builtin_sum (map snd opt_legs) /\
    legs_jumps r opt_legs = Ok opt_ns /\
    leb opt_total (builtin_sum (map snd legs)) = true /\
    calculate_route format2 now1 now2 w =
      (Ok tt,
       mkWorld h' (set_jump_range r (calculator w))
         (mkPage (jump_range_input (ui w)) (system_input (ui w))
                 (systems_rows (ui w))
                 (shown format2 false r legs total ns)
                 (shown format2 true r opt_legs opt_total opt_ns)
                 (map (history_row format2)
                      (svs ++ [(now1, map name_string (first :: rest), total);
                               (now2, map name_string (first :: best),
                                opt_total)]))
                 (notifications (ui w)))) /\
    h' !! systems (calculator w) = Some (ListSystems (first :: rest)) /\
    log_view h' (calculator w) =
      Some (map named
              (svs ++ [(now1, map name_string (first :: rest), total);
                       (now2, map name_string (first :: best), opt_total)])).
Proof.
  destruct w as [h c p]. cbn [heap calculator ui].
  intros Hh Hlen Hr Hfin Hest Hstr Hv.
  set (c' := set_jump_range r c).
  (* the entered route *)
  destruct (route_distances_finite first rest rest Hfin (Permutation_refl _))
    as (legs & Hlegs & _ & Htotal).
  set (total := sequential_sum (map snd legs)) in *.
  destruct (estimates_defined_perm r first rest rest legs total Hest
              (Permutation_refl _) Hlegs) as [ns Hns].
  destruct (log_route_view c' now1 (systems c') total h (first :: rest)
              (map named svs) Hh Hv) as (h1 & Hlog1 & Hv1 & Hk1).
  (* the optimized route *)
  assert (Hh1 : h1 !! systems c' = Some (ListSystems (first :: rest)))
    by (apply Hk1, Hh).
  destruct (optimize_route_first_shortest c' h1 first rest Hh1 Hfin
              ltac:(simpl; lia))
    as (best & l & h2 & pre & post & Hopt & Hl & Hperm & _ & _ & Hmin).
  destruct (route_distances_finite first rest best Hfin Hperm)
    as (olegs & Holegs & Hcomp & Hototal).
  set (ototal := builtin_sum (map snd olegs)) in *.
  destruct (estimates_defined_perm r first rest best olegs _ Hest
              Hperm Holegs) as [ons Hons].
  assert (Hle : leb ototal (builtin_sum (map snd legs)) = true).
  { destruct (Hmin rest (Permutation_refl _)) as (tb & te & Htb & Hte & Hle).
    congruence. }
  pose proof (optimize_route_keeps _ _ _ _ Hopt) as Hk2.
  assert (Hv2 : log_view h2 c' =
                Some (map named svs
                        ++ [(now1, map name (first :: rest), total)]))
    by (apply (log_view_keeps c' h1 h2); assumption).
  destruct (log_route_view c' now2 l ototal h2 (first :: best) _ Hl Hv2)
    as (h3 & Hlog2 & Hv3 & Hk3).
  assert (Hnames : map name (first :: rest) =
                   map VStr (map name_string (first :: rest)))
    by (apply names_are_strings_map, Hstr).
  assert (Hnames' : map name (first :: best) =
                    map VStr (map name_string (first :: best))).
  { apply names_are_strings_map.
    apply (names_are_strings_perm (first :: rest)); [|exact Hstr].
    apply perm_skip, Hperm. }
  assert (Hv3' : log_view h3 c' =
     Some (map named (svs ++ [(now1, map name_string (first :: rest), total);
                       (now2, map name_string (first :: best), ototal)]))).
  { rewrite Hv3, Hnames, Hnames', map_app, <- app_assoc. reflexivity. }
  exists best, legs, total, ns, olegs, ototal, ons, h3.
  split; [exact Hperm|]. split; [exact Hlegs|]. split; [exact Hns|].
  split; [rewrite Holegs; reflexivity|]. split; [reflexivity|].
  split; [exact Hons|]. split; [exact Hle|].
  split; [|split; [apply Hk3, Hk2, Hh1|exact Hv3']].
  unfold calculate_route.
  etransitivity; [eapply ubind_ok; reflexivity|].
  etransitivity;
    [eapply ubind_ok; apply on_heap_run; unfold get_systems;
     cbn [heap calculator]; rewrite Hh; reflexivity|].
  cbn [calculator ui].
  destruct (Nat.ltb_spec (length (first :: rest)) 2) as [Hlt|_];
    [simpl in Hlt; lia|].
  etransitivity; [eapply ubind_ok; reflexivity|].
  cbn [ui]. rewrite Hr. fold c'.
  etransitivity; [eapply ubind_ok; reflexivity|].
  etransitivity;
    [eapply ubind_ok; apply on_heap_run;
     unfold calculate_route_distances, bind, get_systems, lift;
     cbn [heap]; change (systems c') with (systems c); rewrite Hh, Hlegs;
     reflexivity|].
  cbn [fst snd calculator ui].
  etransitivity; [eapply ubind_ok; apply on_heap_run; cbn [heap]; exact Hlog1|].
  cbn [calculator ui].
  etransitivity; [eapply ubind_ok; apply update_results_shown; exact Hns|].
  etransitivity;
    [eapply ubind_ok; apply on_heap_run; unfold change_panel; cbn [heap];
     exact Hopt|].
  etransitivity;
    [eapply ubind_ok; apply on_heap_run; unfold get_systems; cbn [heap];
     rewrite Hl; reflexivity|].
  rewrite Hcomp.
  etransitivity; [eapply ubind_ok; unfold of_result; reflexivity|].
  cbn zeta. fold ototal.
  etransitivity;
    [eapply ubind_ok; apply on_heap_run; cbn [heap calculator]; exact Hlog2|].
  etransitivity; [eapply ubind_ok; apply update_results_shown; exact Hons|].
  unfold change_panel. cbn [heap calculator ui with_panel].
  unfold update_route_history. cbn [heap calculator ui].
  unfold log_view in Hv3'.
  destruct (h3 !! route_log c') as [[| |log]|]; try discriminate.
  rewrite (format_route_rows_named format2 _ _ _ Hv3'). reflexivity.
Qed.

End RouteFacts.

(** Run with the [sum] that adds from left to right. *)
Section RouteSamples.

#[local] Existing Instance cpython_3_11.

Lemma calculate_route_too_short_witness :
  heap (world_of [sys_A] None) !! systems (calculator (world_of [sys_A] None))
    = Some (ListSystems [sys_A]) /\
  calculate_route two_decimals "12:00:00" "12:00:01" (world_of [sys_A] None) =
  (Ok tt,
   mkWorld (heap (world_of [sys_A] None)) (calculator (world_of [sys_A] None))
           (notify PleaseAddTwoSystems (ui (world_of [sys_A] None)))).
Proof.
  split; [reflexivity|].
  apply (calculate_route_too_short two_decimals "12:00:00" "12:00:01"
           (world_of [sys_A] None) [sys_A]); [reflexivity|simpl; lia].
Defined.

Lemma calculate_route_shows_both_witness :
  tours_finite [sys_A; sys_C; sys_B] = true /\
  estimates_defined (of_Z 5) [sys_A; sys_C; sys_B] = true /\
  names_are_strings [sys_A; sys_C; sys_B] = true /\
  (calculate_route two_decimals "12:00:00" "12:00:01"
     (world_of [sys_A; sys_C; sys_B] (Some (of_Z 5)))).1 = Ok tt.
Proof.
  split; [reflexivity|]. split; [reflexivity|]. split; [reflexivity|].
  destruct (calculate_route_shows_both two_decimals (py := cpython_3_11)
              "12:00:00" "12:00:01"
              (world_of [sys_A; sys_C; sys_B] (Some (of_Z 5)))
              sys_A [sys_C; sys_B] [] (of_Z 5)
              eq_refl ltac:(simpl; lia) eq_refl eq_refl eq_refl eq_refl
              eq_refl)
    as (best & legs & total & ns & olegs & ototal & ons & h' & _ & _ & _ & _
        & _ & _ & _ & Hrun & _).
  rewrite Hrun. reflexivity.
Defined.

(** Entered as A, C, B with the range 5: the entered panel shows 5 and 4
    light years in 1 and 1 jumps, the optimized panel 3 and 4 light
    years, the log has two entries, and the history names the optimized
    route A, B, C. *)
Example calculate_route_A_C_B :
  let w := (calculate_route two_decimals "12:00:00" "12:00:01"
              (world_of [sys_A; sys_C; sys_B] (Some (of_Z 5)))).2 in
  map Row.distance (Panel.rows (results (ui w))) = ["5.00"; "4.00"]%string /\
  Panel.total_text (results (ui w)) = "Total Distance: 9.00 Ly"%string /\
  map Row.distance (Panel.rows (optimized (ui w))) = ["3.00"; "4.00"]%string /\
  Panel.jumps_text (optimized (ui w)) = "Estimated Jumps: 2"%string /\
  map HistoryRow.distance (history_rows (ui w)) = ["9.00"; "7.00"]%string /\
  log_view (heap w) (calculator w) =
    Some [("12:00:00"%string, [VStr "A"; VStr "C"; VStr "B"], of_Z 9);
          ("12:00:01"%string, [VStr "A"; VStr "B"; VStr "C"], of_Z 7)].
Proof. vm_compute. repeat split; reflexivity. Qed.

End RouteSamples.

Lemma scan_none {py : Interpreter} first perms sd sr :
  Forall (fun p => ltb (score first p) sd = false) perms ->
  scan first perms sd sr = sr.
Proof.
  induction 1 as [|p perms Hp _ IH]; [reflexivity|].
  cbn [scan]. rewrite Hp. exact IH.
Qed.

Lemma optimize_route_none {py : Interpreter} self (h : gmap loc obj)
    first rest :
  h !! systems self = Some (ListSystems (first :: rest)) ->
  (1 <= length rest)%nat ->
  tours_unusable (first :: rest) = true ->
  exists h', optimize_route self h = (Ok None, h').
Proof.
  intros Hh Hlen Hun. cbn [tours_unusable] in Hun.
  rewrite forallb_forall in Hun.
  rewrite (optimize_route_long self h first rest Hh) by (simpl; lia).
  destruct (search_scan first (Itertools.permutations rest) inf None h)
    as (res & h' & Hs & Hres).
  { apply Forall_forall. intros p Hp. apply list_elem_of_In in Hp.
    specialize (Hun p Hp). cbn [app].
    destruct (tour_distance (first :: p)) as [t|]; [eauto|discriminate]. }
  rewrite scan_none in Hres.
  - subst res. eauto.
  - apply Forall_forall. intros p Hp. apply list_elem_of_In in Hp.
    specialize (Hun p Hp). unfold score. cbn [app].
    destruct (tour_distance (first :: p)) as [t|]; [|discriminate].
    destruct (ltb t inf); [discriminate|reflexivity].
Qed.

Section NoTour.

Variable format2 : float -> string.

(** X15.  Let no candidate tour have a total below infinity (a NaN
    coordinate, or totals that overflow), and let every leg of the
    entered route have its estimate for the jump range [r] read from the
    field, as it has when the field holds no range above zero; without
    the estimates [update_results] raises before the optimizer is called.
    Then, on every interpreter, [calculate_route] does half its work and
    raises [TypeError]: [optimize_route] returns [None], whose length is
    asked for.  By then the jump range of the calculator is set, the
    entered route has been logged, as the one new entry of the log, and
    the entered panel shows it; the optimized panel and the history table
    still show what they showed before, and the live route is as it
    was. *)
Theorem calculate_route_no_tour {py : Interpreter} now1 now2 w first rest r
    legs total ns vs :
  heap w !! systems (calculator w) = Some (ListSystems (first :: rest)) ->
  (1 <= length rest)%nat ->
  entered_jump_range (jump_range_input (ui w)) = r ->
  tours_unusable (first :: rest) = true ->
  route_distances (first :: rest) = Ok (legs, total) ->
  legs_jumps r legs = Ok ns ->
  log_view (heap w) (calculator w) = Some vs ->
  exists h',
    calculate_route format2 now1 now2 w =
      (Raise TypeError,
       mkWorld h' (set_jump_range r (calculator w))
         (mkPage (jump_range_input (ui w)) (system_input (ui w))
                 (systems_rows (ui w))
                 (shown format2 false r legs total ns)
                 (optimized (ui w)) (history_rows (ui w))
                 (notifications (ui w)))) /\
    h' !! systems (calculator w) = Some (ListSystems (first :: rest)) /\
    log_view h' (calculator w) =
      Some (vs ++ [(now1, map name (first :: rest), total)]).
Proof.
  destruct w as [h c p]. cbn [heap calculator ui].
  intros Hh Hlen Hr Hun Hlegs Hns Hv.
  set (c' := set_jump_range r c).
  destruct (log_route_view c' now1 (systems c') total h (first :: rest)
              vs Hh Hv) as (h1 & Hlog1 & Hv1 & Hk1).
  assert (Hh1 : h1 !! systems c' = Some (ListSystems (first :: rest)))
    by (apply Hk1, Hh).
  destruct (optimize_route_none c' h1 first rest Hh1 Hlen Hun) as [h2 Hopt].
  pose proof (optimize_route_keeps _ _ _ _ Hopt) as Hk2.
  exists h2. split; [|split; [apply Hk2, Hh1|]].
  2:{ apply (log_view_keeps c' h1 h2); assumption. }
  unfold calculate_route.
  etransitivity; [eapply ubind_ok; reflexivity|].
  etransitivity;
    [eapply ubind_ok; apply on_heap_run; unfold get_systems;
     cbn [heap calculator]; rewrite Hh; reflexivity|].
  cbn [calculator ui].
  destruct (Nat.ltb_spec (length (first :: rest)) 2) as [Hlt|_];
    [simpl in Hlt; lia|].
  etransitivity; [eapply ubind_ok; reflexivity|].
  cbn [ui]. rewrite Hr. fold c'.
  etransitivity; [eapply ubind_ok; reflexivity|].
  etransitivity;
    [eapply ubind_ok; apply on_heap_run;
     unfold calculate_route_distances, bind, get_systems, lift;
     cbn [heap]; change (systems c') with (systems c); rewrite Hh, Hlegs;
     reflexivity|].
  cbn [fst snd calculator ui].
  etransitivity;
    [eapply ubind_ok; apply on_heap_run; cbn [heap]; exact Hlog1|].
  cbn [calculator ui].
  etransitivity; [eapply ubind_ok; apply update_results_shown; exact Hns|].
  etransitivity;
    [eapply ubind_ok; apply on_heap_run; unfold change_panel; cbn [heap];
     exact Hopt|].
  reflexivity.
Qed.

End NoTour.

(** Run with the [sum] that adds from left to right. *)
Section NoTourSamples.

#[local] Existing Instance cpython_3_11.

Lemma calculate_route_no_tour_witness :
  tours_unusable [sys_A; sys_gap] = true /\
  route_distances [sys_A; sys_gap] = Ok ([(VStr "A", VStr "Gap", nan)], nan) /\
  (calculate_route two_decimals "12:00:00" "12:00:01"
     (world_of [sys_A; sys_gap] None)).1 = Raise TypeError.
Proof.
  split; [reflexivity|]. split; [reflexivity|].
  destruct (calculate_route_no_tour two_decimals "12:00:00" "12:00:01"
              (world_of [sys_A; sys_gap] None) sys_A [sys_gap] zero
              [(VStr "A", VStr "Gap", nan)] nan [0] []
              eq_refl ltac:(simpl; lia) eq_refl eq_refl eq_refl eq_refl
              eq_refl)
    as (h' & Hrun & _).
  rewrite Hrun. reflexivity.
Defined.

(** With a jump range in the field the same route fails earlier: the
    estimate of the leg of NaN light years raises [ValueError] in
    [update_results], before the optimizer is called. *)
Example calculate_route_gap_with_range :
  (calculate_route two_decimals "12:00:00" "12:00:01"
     (world_of [sys_A; sys_gap] (Some (of_Z 5)))).1 = Raise ValueError.
Proof. vm_compute. reflexivity. Qed.

End NoTourSamples.

(** ** What no handler does to the live route *)

Lemma steady_ubind {A B : Type} (m : U A) (k : A -> U B) :
  steady m -> (forall a, steady (k a)) -> steady (ubind m k).
Proof.
  intros Hm Hk w r w'. unfold ubind.
  destruct (m w) as [[a|e] w1] eqn:E.
  - intros H. destruct (Hm _ _ _ E) as (Hs & Hl & Hh & Hr & Hi & Hj).
    destruct (Hk a _ _ _ H) as (Hs' & Hl' & Hh' & Hr' & Hi' & Hj').
    repeat split; try congruence. auto.
  - intros [= <- <-]. apply (Hm _ _ _ E).
Qed.

Lemma steady_on_heap {A : Type} (m : M A) :
  (forall h r h', m h = (r, h') ->
     forall l its, h !! l = Some (ListSystems its) ->
                   h' !! l = Some (ListSystems its)) ->
  steady (on_heap m).
Proof.
  intros Hm w r w'. unfold on_heap.
  destruct (m (heap w)) as [r0 h'] eqn:E. intros [= <- <-].
  cbn [heap calculator ui]. repeat split. apply (Hm _ _ _ E).
Qed.

Lemma steady_of_result {A : Type} (r : result A) : steady (of_result r).
Proof. intros w r0 w' [= <- <-]. repeat split; auto. Qed.

Lemma steady_panel b f : steady (update_page (with_panel b f)).
Proof.
  intros w r w' [= <- <-]. destruct b; cbn; repeat split; auto.
Qed.

Lemma steady_notify n : steady (update_page (notify n)).
Proof. intros w r w' [= <- <-]. cbn. repeat split; auto. Qed.

Lemma log_route_keeps self now route total (h : gmap loc obj) r h' :
  log_route self now route total h = (r, h') ->
  forall l its, h !! l = Some (ListSystems its) ->
                h' !! l = Some (ListSystems its).
Proof.
  unfold log_route, bind, get_systems, alloc, append_log.
  destruct (h !! route) as [[items| |]|]; try (intros [= <- <-]; auto).
  set (n := fresh (dom h)). cbn zeta.
  set (h1 := <[n := ListNames (map name items)]> h).
  assert (Hk : forall l its, h !! l = Some (ListSystems its) ->
                             h1 !! l = Some (ListSystems its))
    by (intros; apply alloc_keeps; assumption).
  destruct (h1 !! route_log self) as [[| |es]|] eqn:E;
    intros [= <- <-]; auto.
  intros l its Hl. rewrite lookup_insert_ne; [auto|].
  intros <-. rewrite (Hk _ _ Hl) in E. discriminate.
Qed.

Section HandlerFacts.

Variable format2 : float -> string.
Variable float_of_string : string -> option float.

Lemma steady_results_loop b r legs acc :
  steady (results_loop format2 b r legs acc).
Proof.
  revert acc; induction legs as [|[[f t] d] legs IH]; intros acc.
  - intros w r0 w' [= <- <-]. repeat split; auto.
  - cbn [results_loop]. apply steady_ubind; [apply steady_of_result|].
    intros n. apply steady_ubind; [apply steady_panel|]. intros _. apply IH.
Qed.

Lemma steady_update_results legs total b r :
  steady (update_results format2 legs total b r).
Proof.
  unfold update_results.
  apply steady_ubind; [apply steady_panel|]. intros _.
  apply steady_ubind; [apply steady_results_loop|]. intros n.
  apply steady_ubind; [apply steady_panel|]. intros _. apply steady_panel.
Qed.

Lemma steady_update_route_history : steady (update_route_history format2).
Proof.
  intros w r w'. unfold update_route_history.
  destruct (heap w !! route_log (calculator w)) as [[| |log]|];
    try (intros [= <- <-]; repeat split; auto).
  destruct (format_route_rows format2 (heap w) log);
    intros [= <- <-]; repeat split; auto.
Qed.

Lemma calculate_route_steady {py : Interpreter} now1 now2 :
  steady (calculate_route format2 now1 now2).
Proof.
  intros w r w'. unfold calculate_route.
  unfold ubind at 1. cbn [get_calculator].
  unfold ubind at 1. unfold on_heap at 1, get_systems at 1.
  destruct (heap w !! systems (calculator w)) as [[route| |]|] eqn:Hh;
    try (intros [= <- <-]; repeat split; auto).
  replace (mkWorld (heap w) (calculator w) (ui w)) with w
    by (destruct w; reflexivity).
  destruct (length route <? 2)%nat; [apply steady_notify|].
  unfold ubind at 1. cbn [get_page].
  unfold ubind at 1. cbn [set_calculator].
  set (jr := entered_jump_range (jump_range_input (ui w))).
  set (c' := set_jump_range jr (calculator w)).
  intros H.
  assert (Hst : steady
    (ubind (on_heap (calculate_route_distances c')) (fun entered =>
     ubind (on_heap (log_route c' now1 (systems c') (snd entered))) (fun _ =>
     ubind (update_results format2 (fst entered) (snd entered) false jr) (fun _ =>
     ubind (on_heap (optimize_route c')) (fun optimized_route =>
       match optimized_route with
       | None => of_result (Raise TypeError)
       | Some l =>
           ubind (on_heap (get_systems l)) (fun items =>
           ubind (of_result (opt_legs items (seq 0 (length items - 1))))
             (fun opt_distances =>
           ubind (on_heap (log_route c' now2 l
                     (builtin_sum (map snd opt_distances)))) (fun _ =>
           ubind (update_results format2 opt_distances
                     (builtin_sum (map snd opt_distances)) true jr)
             (fun _ => update_route_history format2))))
       end)))))).
  { apply steady_ubind.
    { apply steady_on_heap. intros h r0 h'.
      unfold calculate_route_distances, bind, get_systems, lift.
      destruct (h !! systems c') as [[items| |]|]; intros [= <- <-]; auto. }
    intros entered. apply steady_ubind.
    { apply steady_on_heap. apply log_route_keeps. }
    intros _. apply steady_ubind; [apply steady_update_results|].
    intros _. apply steady_ubind.
    { apply steady_on_heap. intros h r0 h' Ho l its.
      apply (optimize_route_keeps _ _ _ _ Ho). }
    intros [l|]; [|apply steady_of_result].
    apply steady_ubind.
    { apply steady_on_heap. intros h r0 h'. unfold get_systems.
      destruct (h !! l) as [[items| |]|]; intros [= <- <-]; auto. }
    intros items. apply steady_ubind; [apply steady_of_result|].
    intros od. apply steady_ubind.
    { apply steady_on_heap. apply log_route_keeps. }
    intros _. apply steady_ubind; [apply steady_update_results|].
    intros _. apply steady_update_route_history. }
  apply Hst in H. cbn [heap calculator ui] in H.
  destruct H as (Hs & Hl & Hk & Hr & Hi & Hj). repeat split; auto.
Qed.

(** X16.  Whatever its outcome, a return or any exception at any point,
    [calculate_route] binds neither the live route nor the log to another
    object, leaves every list of systems of the heap with the systems it
    had, in their order, and does not touch the systems table: the
    entered route is never reordered, also not by the optimizer. *)
Theorem calculate_route_keeps_systems {py : Interpreter} now1 now2 w :
  systems (calculator (calculate_route format2 now1 now2 w).2) =
    systems (calculator w) /\
  route_log (calculator (calculate_route format2 now1 now2 w).2) =
    route_log (calculator w) /\
  (forall l its, heap w !! l = Some (ListSystems its) ->
     heap (calculate_route format2 now1 now2 w).2 !! l =
       Some (ListSystems its)) /\
  systems_rows (ui (calculate_route format2 now1 now2 w).2) =
    systems_rows (ui w).
Proof.
  destruct (calculate_route format2 now1 now2 w) as [r w'] eqn:E.
  destruct (calculate_route_steady now1 now2 w r w' E)
    as (Hs & Hl & Hk & Hr & _). cbn [snd]. auto.
Qed.

(** ** [handle_upload] and [add_system] *)

(** An import that reports failure has left the heap as it was. *)
Lemma import_false_keeps self csv (h : gmap loc obj) m h' :
  import_route_from_csv float_of_string self csv h = (Ok (false, m), h') ->
  h' = h.
Proof.
  unfold import_route_from_csv, catch, bind, lift, ret.
  destruct csv as [frame|e]; [|intros [= _ <-]; reflexivity].
  destruct (has_required_columns (columns frame)); cbn [negb];
    [|intros [= _ <-]; reflexivity].
  destruct (import_rows _ _ _ _) as [imported|e];
    [|intros [= _ <-]; reflexivity].
  unfold extend. destruct (h !! systems self) as [[items| |]|]; cbn;
    intros [= ]; congruence.
Qed.

Lemma import_run self frame (h : gmap loc obj) items imported :
  h !! systems self = Some (ListSystems items) ->
  has_required_columns (columns frame) = true ->
  import_rows float_of_string (columns frame) (rows frame) [] = Ok imported ->
  import_route_from_csv float_of_string self (Ok frame) h =
    (Ok (true, Imported (length imported)),
     <[systems self := ListSystems (items ++ imported)]> h).
Proof.
  intros Hh Hc Hi.
  unfold import_route_from_csv, catch, bind, lift, ret, extend.
  rewrite Hc. cbn [negb]. rewrite Hi, Hh. reflexivity.
Qed.

(** X17.  When the import fails, [handle_upload] returns having done
    one thing: the message of the import is shown as a notice.  The heap,
    and with it the live route and the log, the calculator, the tables and
    the labels are as they were. *)
Theorem handle_upload_failed_import {py : Interpreter} now1 now2 csv w m
    h' :
  import_route_from_csv float_of_string (calculator w) csv (heap w) =
    (Ok (false, m), h') ->
  handle_upload format2 float_of_string now1 now2 csv w =
  (Ok tt, mkWorld (heap w) (calculator w) (notify (ImportFailed m) (ui w))).
Proof.
  intros H. pose proof (import_false_keeps _ _ _ _ _ H) as ->.
  unfold handle_upload, ucatch, ubind, get_calculator, on_heap.
  rewrite H. reflexivity.
Qed.

Lemma update_systems_table_run w route :
  heap w !! systems (calculator w) = Some (ListSystems route) ->
  update_systems_table format2 w =
  (Ok tt,
   mkWorld (heap w) (calculator w)
           (set_systems_rows (map (format_system_row format2) route) (ui w))).
Proof.
  intros Hh. unfold update_systems_table.
  etransitivity; [eapply ubind_ok; reflexivity|].
  etransitivity;
    [eapply ubind_ok; apply on_heap_run; unfold get_systems; rewrite Hh;
     reflexivity|].
  reflexivity.
Qed.

(** After a successful import the handler goes on from the world with the
    longer live route, the notice of the import and the new rows of the
    systems table. *)
Lemma handle_upload_imported {py : Interpreter} now1 now2 frame w items
    imported :
  heap w !! systems (calculator w) = Some (ListSystems items) ->
  has_required_columns (columns frame) = true ->
  import_rows float_of_string (columns frame) (rows frame) [] = Ok imported ->
  handle_upload format2 float_of_string now1 now2 (Ok frame) w =
  ucatch
    (if (2 <=? length (items ++ imported))%nat
     then if ltb zero (jump_range (calculator w))
          then calculate_route format2 now1 now2
          else update_page (notify EnterValidJumpRange)
     else uret tt)
    (fun ex => update_page (notify (ErrorProcessingFile ex)))
    (mkWorld (<[systems (calculator w) := ListSystems (items ++ imported)]>
                (heap w))
             (calculator w)
             (set_systems_rows
                (map (format_system_row format2) (items ++ imported))
                (notify (ImportDone (Imported (length imported))) (ui w)))).
Proof.
  intros Hh Hc Hi. unfold handle_upload, ucatch.
  match goal with
  | |- match ?x with _ => _ end = match ?y with _ => _ end =>
      assert (E : x = y); [|rewrite E; reflexivity]
  end.
  etransitivity; [eapply ubind_ok; reflexivity|].
  etransitivity;
    [eapply ubind_ok; apply on_heap_run; apply import_run; eassumption|].
  cbn [fst snd calculator ui].
  etransitivity; [eapply ubind_ok; reflexivity|].
  etransitivity;
    [eapply ubind_ok; apply update_systems_table_run; cbn [heap calculator];
     apply lookup_insert_eq|].
  cbn [heap calculator ui].
  etransitivity;
    [eapply ubind_ok; apply on_heap_run; unfold get_systems; cbn [heap];
     rewrite lookup_insert_eq; reflexivity|].
  reflexivity.
Qed.

(** X18.  After a successful import [handle_upload] goes by the jump
    range of the calculator, which is the one of the last calculation, not
    by the jump range field.  While that attribute is not above zero, as
    for a calculator that has not calculated yet, no route is calculated
    whatever the field holds: with two systems or more the handler
    returns with the imported systems appended to the live route, the
    systems table showing them, the notice of the import followed by
    ['Please enter a valid jump range.'], and the log, the result tables
    and the history as they were. *)
Theorem handle_upload_stale_range {py : Interpreter} now1 now2 frame w
    items imported :
  heap w !! systems (calculator w) = Some (ListSystems items) ->
  has_required_columns (columns frame) = true ->
  import_rows float_of_string (columns frame) (rows frame) [] = Ok imported ->
  (2 <= length (items ++ imported))%nat ->
  ltb zero (jump_range (calculator w)) = false ->
  handle_upload format2 float_of_string now1 now2 (Ok frame) w =
  (Ok tt,
   mkWorld (<[systems (calculator w) := ListSystems (items ++ imported)]>
              (heap w))
           (calculator w)
           (mkPage (jump_range_input (ui w)) (system_input (ui w))
                   (map (format_system_row format2) (items ++ imported))
                   (results (ui w)) (optimized (ui w)) (history_rows (ui w))
                   (notifications (ui w)
                      ++ [ImportDone (Imported (length imported));
                          EnterValidJumpRange]))).
Proof.
  intros Hh Hc Hi Hlen Hjr.
  rewrite (handle_upload_imported now1 now2 frame w items imported Hh Hc Hi).
  destruct (Nat.leb_spec 2 (length (items ++ imported))) as [_|]; [|lia].
  rewrite Hjr. unfold ucatch, update_page, notify, set_systems_rows.
  cbn [heap calculator ui notify set_systems_rows jump_range_input
       system_input systems_rows results optimized history_rows
       notifications].
  rewrite <- app_assoc. reflexivity.
Qed.

(** X19.  After a successful import [handle_upload] never raises, and
    whatever becomes of the calculation that follows, also when it raises
    and the error is shown as an error of the file, the live route is the
    same list object, holding the systems it held followed by the imported
    ones, and the systems table shows these systems. *)
Theorem handle_upload_imports {py : Interpreter} now1 now2 frame w items
    imported :
  heap w !! systems (calculator w) = Some (ListSystems items) ->
  has_required_columns (columns frame) = true ->
  import_rows float_of_string (columns frame) (rows frame) [] = Ok imported ->
  exists w',
    handle_upload format2 float_of_string now1 now2 (Ok frame) w =
      (Ok tt, w') /\
    systems (calculator w') = systems (calculator w) /\
    heap w' !! systems (calculator w) =
      Some (ListSystems (items ++ imported)) /\
    systems_rows (ui w') =
      map (format_system_row format2) (items ++ imported).
Proof.
  intros Hh Hc Hi.
  rewrite (handle_upload_imported now1 now2 frame w items imported Hh Hc Hi).
  set (w1 := mkWorld _ _ _).
  assert (H1 : heap w1 !! systems (calculator w) =
               Some (ListSystems (items ++ imported)))
    by (unfold w1; cbn [heap]; apply lookup_insert_eq).
  unfold ucatch.
  destruct (2 <=? length (items ++ imported))%nat.
  - destruct (ltb zero (jump_range (calculator w))).
    + destruct (calculate_route format2 now1 now2 w1) as [r w2] eqn:E.
      destruct (calculate_route_steady now1 now2 w1 r w2 E)
        as (Hs & _ & Hk & Hr & _).
      destruct r as [[]|e]; eexists; (split; [reflexivity|]);
        cbn [heap calculator ui notify systems_rows];
        (split; [exact Hs|]); (split; [apply Hk, H1|exact Hr]).
    + eexists. split; [reflexivity|]. cbn. split; [reflexivity|].
      split; [exact H1|reflexivity].
  - eexists. split; [reflexivity|]. cbn. split; [reflexivity|].
    split; [exact H1|reflexivity].
Qed.

(** X20.  [add_system] with a name in the field and a system found:
    whatever becomes of the calculation that follows, the system is
    appended in place to the live route, which stays the same list
    object, and the systems table shows the longer route.  The field is
    cleared when the handler returns, and still holds the name when the
    calculation raises. *)
Theorem add_system_appends {py : Interpreter} now1 now2 w input s items :
  system_input (ui w) = Some input ->
  input <> "" ->
  heap w !! systems (calculator w) = Some (ListSystems items) ->
  systems (calculator (add_system format2 now1 now2 (Some s) w).2) =
    systems (calculator w) /\
  heap (add_system format2 now1 now2 (Some s) w).2 !! systems (calculator w) =
    Some (ListSystems (items ++ [s])) /\
  systems_rows (ui (add_system format2 now1 now2 (Some s) w).2) =
    map (format_system_row format2) (items ++ [s]) /\
  match (add_system format2 now1 now2 (Some s) w).1 with
  | Ok _ => system_input (ui (add_system format2 now1 now2 (Some s) w).2)
            = Some ""
  | Raise _ => system_input (ui (add_system format2 now1 now2 (Some s) w).2)
               = Some input
  end.
Proof.
  intros Hin Hne Hh.
  set (w1 := mkWorld (<[systems (calculator w) := ListSystems (items ++ [s])]>
                        (heap w))
                     (calculator w)
                     (set_systems_rows
                        (map (format_system_row format2) (items ++ [s]))
                        (ui w))).
  assert (E : add_system format2 now1 now2 (Some s) w =
              ubind (if (2 <=? length (items ++ [s]))%nat
                     then calculate_route format2 now1 now2 else uret tt)
                    (fun _ => update_page (set_system_input (Some "")))
                    w1).
  { unfold add_system.
    etransitivity; [eapply ubind_ok; reflexivity|].
    rewrite Hin. destruct (String.eqb_spec input ""); [contradiction|].
    etransitivity; [eapply ubind_ok; reflexivity|].
    etransitivity;
      [eapply ubind_ok; apply on_heap_run; unfold extend; rewrite Hh;
       reflexivity|].
    cbn [calculator ui].
    etransitivity;
      [eapply ubind_ok; apply update_systems_table_run; cbn [heap calculator];
       apply lookup_insert_eq|].
    cbn [heap calculator ui].
    etransitivity;
      [eapply ubind_ok; apply on_heap_run; unfold get_systems; cbn [heap];
       rewrite lookup_insert_eq; reflexivity|].
    reflexivity. }
  rewrite E. clear E.
  assert (H1 : heap w1 !! systems (calculator w) =
               Some (ListSystems (items ++ [s])))
    by (unfold w1; cbn [heap]; apply lookup_insert_eq).
  assert (H2 : system_input (ui w1) = Some input) by exact Hin.
  unfold ubind.
  destruct (2 <=? length (items ++ [s]))%nat.
  - destruct (calculate_route format2 now1 now2 w1) as [r w2] eqn:E.
    destruct (calculate_route_steady now1 now2 w1 r w2 E)
      as (Hs & _ & Hk & Hr & Hi & _).
    destruct r as [[]|e]; cbn [fst snd heap calculator ui set_system_input
      systems_rows system_input update_page];
      (split; [exact Hs|]); (split; [apply Hk, H1|]); (split; [exact Hr|]);
      [reflexivity|congruence].
  - cbn. split; [reflexivity|]. split; [exact H1|]. split; reflexivity.
Qed.

End HandlerFacts.

(** Run with the [sum] that adds from left to right. *)
Section HandlerSamples.

#[local] Existing Instance cpython_3_11.

Lemma handle_upload_failed_import_witness :
  import_route_from_csv parse_digits (calculator (world_of [sys_A] None))
                        (Ok frame_no_Z) (heap (world_of [sys_A] None)) =
    (Ok (false, InvalidFormat), heap_of [sys_A]) /\
  handle_upload two_decimals parse_digits "12:00:00" "12:00:01"
                (Ok frame_no_Z) (world_of [sys_A] None) =
  (Ok tt,
   mkWorld (heap (world_of [sys_A] None)) (calculator (world_of [sys_A] None))
           (notify (ImportFailed InvalidFormat) (ui (world_of [sys_A] None)))).
Proof.
  split; [reflexivity|].
  apply (handle_upload_failed_import two_decimals parse_digits "12:00:00"
           "12:00:01" (Ok frame_no_Z) (world_of [sys_A] None) InvalidFormat
           (heap_of [sys_A])).
  reflexivity.
Defined.

Lemma handle_upload_stale_range_witness :
  ltb zero (jump_range (calculator (world_new [sys_A] (Some (of_Z 5)))))
    = false /\
  jump_range_input (ui (world_new [sys_A] (Some (of_Z 5)))) = Some (of_Z 5) /\
  (handle_upload two_decimals parse_digits "12:00:00" "12:00:01"
     (Ok frame_B) (world_new [sys_A] (Some (of_Z 5)))).1 = Ok tt /\
  notifications
    (ui (handle_upload two_decimals parse_digits "12:00:00" "12:00:01"
           (Ok frame_B) (world_new [sys_A] (Some (of_Z 5)))).2) =
    [ImportDone (Imported 1); EnterValidJumpRange].
Proof.
  split; [reflexivity|]. split; [reflexivity|].
  rewrite (handle_upload_stale_range two_decimals parse_digits "12:00:00"
             "12:00:01" frame_B (world_new [sys_A] (Some (of_Z 5)))
             [sys_A] [sys_B] eq_refl eq_refl eq_refl
             ltac:(simpl; lia) eq_refl).
  split; reflexivity.
Defined.

Lemma handle_upload_imports_witness :
  import_rows parse_digits (columns frame_B) (rows frame_B) [] = Ok [sys_B] /\
  exists w',
    handle_upload two_decimals parse_digits "12:00:00" "12:00:01"
                  (Ok frame_B) (world_of [sys_A] None) = (Ok tt, w') /\
    systems (calculator w') = systems (calculator (world_of [sys_A] None)) /\
    heap w' !! systems (calculator (world_of [sys_A] None)) =
      Some (ListSystems ([sys_A] ++ [sys_B])) /\
    systems_rows (ui w') =
      map (format_system_row two_decimals) ([sys_A] ++ [sys_B]).
Proof.
  split; [reflexivity|].
  apply (handle_upload_imports two_decimals parse_digits "12:00:00"
           "12:00:01" frame_B (world_of [sys_A] None) [sys_A] [sys_B]);
    reflexivity.
Defined.

Lemma add_system_appends_witness :
  system_input (ui (typing "B" (world_of [sys_A] None))) = Some "B"%string /\
  heap (add_system two_decimals "12:00:00" "12:00:01" (Some sys_B)
          (typing "B" (world_of [sys_A] None))).2
    !! systems (calculator (typing "B" (world_of [sys_A] None))) =
    Some (ListSystems ([sys_A] ++ [sys_B])).
Proof.
  split; [reflexivity|].
  destruct (add_system_appends two_decimals "12:00:00" "12:00:01"
              (typing "B" (world_of [sys_A] None)) "B"%string sys_B [sys_A]
              eq_refl ltac:(discriminate) eq_refl) as (_ & H & _).
  exact H.
Defined.

End HandlerSamples.
